(** * CTL tutoring chatbot (retrieval-augmented generation): model and properties

    A shallow embedding of [src/app.py], [src/myollama.py] and [src/cli.py].

    Conventions of the model.
    - A Python [str] is a list of Unicode code points ([pystr := list N]).
    - A Python [float] is an exact rational ([Q]); rounding is not modelled.
    - Exceptions are values of [PyError]; a fallible function returns
      [PyError + A].
    - The embedder, the generative model and the clock are parameters. *)

From Stdlib Require Import String Ascii QArith Qround.
From stdpp Require Import gmap list sorting.

Set Default Proof Using "Type".
Local Open Scope N_scope.

(** ** Python strings *)

Abbreviation pystr := (list N) (only parsing).

(** [py "abc"] is the Python literal ['abc'] (ASCII literals only; other
    code points are spliced in as numbers). *)
Fixpoint py (s : string) : pystr :=
  match s with
  | EmptyString => []
  | String a s' => N_of_ascii a :: py s'
  end.

Arguments py : simpl never.

(** [str.lower], character by character.  The letters [A]-[Z] and the
    Kelvin sign U+212A are the code points whose lower case form is an ASCII
    character, and they are moved.  Every other code point is left as it is:
    its lower case form in Python's table lies above 127 (for U+0130 it is
    [i] followed by U+0307), so that no test of this program, each against
    ASCII text, tells the two apart. *)
Definition lower_char (c : N) : N :=
  if (65 <=? c) && (c <=? 90) then c + 32
  else if c =? 8490 then 107
  else c.

Definition lower (s : pystr) : pystr := map lower_char s.

(** [str.isspace] on one code point (CPython's [_PyUnicode_IsWhitespace]). *)
Definition isspace (c : N) : bool :=
  ((9 <=? c) && (c <=? 13)) || ((28 <=? c) && (c <=? 32))
  || (c =? 133) || (c =? 160) || (c =? 5760)
  || ((8192 <=? c) && (c <=? 8202))
  || (c =? 8232) || (c =? 8233) || (c =? 8239) || (c =? 8287) || (c =? 12288).

Fixpoint lstrip (s : pystr) : pystr :=
  match s with
  | c :: s' => if isspace c then lstrip s' else s
  | [] => []
  end.

Definition rstrip (s : pystr) : pystr := rev (lstrip (rev s)).

(** [str.strip()] with no argument. *)
Definition strip (s : pystr) : pystr := rstrip (lstrip s).

Fixpoint startswith (s prefix : pystr) {struct prefix} : bool :=
  match prefix, s with
  | [], _ => true
  | p :: prefix', c :: s' => (p =? c) && startswith s' prefix'
  | _ :: _, [] => false
  end.

(** [needle in hay] on strings. *)
Fixpoint contains (needle hay : pystr) : bool :=
  startswith hay needle
  || match hay with
     | [] => false
     | _ :: hay' => contains needle hay'
     end.

(** [sep.join(parts)]. *)
Fixpoint join (sep : pystr) (parts : list pystr) : pystr :=
  match parts with
  | [] => []
  | [p] => p
  | p :: rest => p ++ sep ++ join sep rest
  end.

(** [s.replace(old, new)] for a one-character [old]. *)
Definition replace_char (old : N) (new : pystr) (s : pystr) : pystr :=
  flat_map (fun c => if c =? old then new else [c]) s.

(** ** Exceptions *)

Inductive PyError : Type :=
| IndexError
| KeyError
| TypeError
| AttributeError
| JSONDecodeError.

(** ** Confidence / escalation helpers ([src/app.py], lines 12-21, 178-184) *)

Definition Qgtb (a b : Q) : bool := negb (Qle_bool a b).

(** Python's [sum(xs)]: a left fold from [0]. *)
Definition py_sum (xs : list Q) : Q := fold_left Qplus xs (0#1)%Q.

Definition py_len {A} (xs : list A) : Q := inject_Z (Z.of_nat (length xs)).

Definition low_retrieval_confidence (distances : list Q) (threshold : Q) : bool :=
  match distances with
  | [] => true
  | _ => let avg := (py_sum distances / py_len distances)%Q in
         Qgtb avg threshold
  end.

(** The literal tested against [reply.lower()]. *)
Definition OUT_OF_SCOPE_NEEDLE : pystr := py "outside ctl's tutoring info".

(** The same phrase as the system prompt spells it. *)
Definition OUT_OF_SCOPE_MARKER : pystr := py "outside CTL's tutoring info".

Definition bot_flagged_out_of_scope (reply : pystr) : bool :=
  contains OUT_OF_SCOPE_NEEDLE (lower reply).

Definition should_log_low_conf (distances : list Q) : bool :=
  low_retrieval_confidence distances (11#10)%Q.

(** The [trigger] of [get_response]. *)
Definition should_escalate (reply : pystr) (distances : list Q) : bool :=
  bot_flagged_out_of_scope reply || should_log_low_conf distances.

(** *** What the specification calls these tests *)

(** The arithmetic mean of a non-empty list. *)
Definition mean (xs : list Q) : Q :=
  (fold_right Qplus (0#1) xs / inject_Z (Z.of_nat (length xs)))%Q.

(** [phrase] occurs in [text] up to letter case. *)
Definition occurs_ignoring_case (phrase text : pystr) : Prop :=
  exists before s after,
    text = before ++ s ++ after /\ lower s = lower phrase.

(** ** Regular expressions (the fragment of [re] the program uses) *)

Module Re.

Inductive regex : Type :=
| Void
| Eps
| Class (p : N -> bool)
| Cat (r1 r2 : regex)
| Alt (r1 r2 : regex)
| Star (r : regex).

Definition Chr (c : N) : regex := Class (N.eqb c).
Definition Plus (r : regex) : regex := Cat r (Star r).
Definition Lit (s : pystr) : regex := fold_right (fun c r => Cat (Chr c) r) Eps s.

(** The language of a pattern. *)
Inductive Matches : regex -> pystr -> Prop :=
| MEps : Matches Eps []
| MClass p c : p c = true -> Matches (Class p) [c]
| MCat r1 r2 s1 s2 :
    Matches r1 s1 -> Matches r2 s2 -> Matches (Cat r1 r2) (s1 ++ s2)
| MAltL r1 r2 s : Matches r1 s -> Matches (Alt r1 r2) s
| MAltR r1 r2 s : Matches r2 s -> Matches (Alt r1 r2) s
| MStarNil r : Matches (Star r) []
| MStarApp r s1 s2 :
    Matches r s1 -> Matches (Star r) s2 -> Matches (Star r) (s1 ++ s2).

Fixpoint nullable (r : regex) : bool :=
  match r with
  | Void => false
  | Eps => true
  | Class _ => false
  | Cat r1 r2 => nullable r1 && nullable r2
  | Alt r1 r2 => nullable r1 || nullable r2
  | Star _ => true
  end.

Fixpoint deriv (c : N) (r : regex) : regex :=
  match r with
  | Void => Void
  | Eps => Void
  | Class p => if p c then Eps else Void
  | Cat r1 r2 =>
      if nullable r1 then Alt (Cat (deriv c r1) r2) (deriv c r2)
      else Cat (deriv c r1) r2
  | Alt r1 r2 => Alt (deriv c r1) (deriv c r2)
  | Star r1 => Cat (deriv c r1) (Star r1)
  end.

(** Does the whole of [s] match [r]? *)
Fixpoint fullmatch (r : regex) (s : pystr) : bool :=
  match s with
  | [] => nullable r
  | c :: s' => fullmatch (deriv c r) s'
  end.

(** [re.match("^" r "$", s) is not None]: without [re.MULTILINE], [^] is
    the start of the string and [$] is its end or the position before a
    newline that ends it. *)
Definition match_anchored (r : regex) (s : pystr) : bool :=
  fullmatch (Cat r (Alt Eps (Chr 10))) s.

End Re.

(** ** The e-mail predicate ([src/app.py], lines 24-30) *)

Definition in_range (lo hi c : N) : bool := (lo <=? c) && (c <=? hi).

(** The class [[A-Za-z0-9._%+-]]. *)
Definition local_class (c : N) : bool :=
  in_range 65 90 c || in_range 97 122 c || in_range 48 57 c
  || (c =? 46) || (c =? 95) || (c =? 37) || (c =? 43) || (c =? 45).

(** The pattern [[A-Za-z0-9._%+-]+@knox\.edu] between [^] and [$]. *)
Definition KNOX_EMAIL_RE : Re.regex :=
  Re.Cat (Re.Plus (Re.Class local_class))
    (Re.Cat (Re.Lit (py "@knox")) (Re.Cat (Re.Chr 46) (Re.Lit (py "edu")))).

Definition is_knox_email (text : pystr) : bool :=
  match text with
  | [] => false
  | _ => Re.match_anchored KNOX_EMAIL_RE (lower (strip text))
  end.

(** *** The predicate in the specification's words *)

(** An address [local@knox.edu] whose local part is not empty and holds only
    letters, digits and the characters [. _ % + -]. *)
Definition knox_address (a : pystr) : Prop :=
  exists local,
    local <> [] /\ Forall (fun c => local_class c = true) local
    /\ a = local ++ py "@knox.edu".

(** Equality of two strings up to letter case. *)
Definition same_ignoring_case (s t : pystr) : Prop := lower s = lower t.

(** ** Retrieval ([src/myollama.py], lines 11-22) *)

(** An embedding vector. *)
Abbreviation vec := (list Q) (only parsing).

(** [seq[i]] for a Python list and a signed index: a negative index counts
    from the end, and an index out of range raises [IndexError]. *)
Definition py_getitem {A} (xs : list A) (i : Z) : PyError + A :=
  let n := Z.of_nat (length xs) in
  let j := if (i <? 0)%Z then (i + n)%Z else i in
  if ((0 <=? j) && (j <? n))%Z then
    match nth_error xs (Z.to_nat j) with
    | Some x => inr x
    | None => inl IndexError
    end
  else inl IndexError.

(** [faiss.IndexFlatL2]: a flat index, searched exhaustively.  The class
    belongs to the FAISS library; what the program relies on is modelled
    here. *)
Module Faiss.

(** Squared L2 distance; [zip] semantics on vectors of unequal length do
    not arise, all vectors coming from one embedder. *)
Fixpoint l2sqr (x y : vec) : Q :=
  match x, y with
  | a :: x', b :: y' => ((a - b) * (a - b) + l2sqr x' y')%Q
  | _, _ => 0%Q
  end.

(** The largest finite [float32]. *)
Definition FLT_MAX : Q := inject_Z 340282346638528859811704183484516925440.

(** One candidate: distance and label. *)
Abbreviation hit := (Q * Z)%type (only parsing).

(** Distances of the query to the stored vectors, labelled from [first]. *)
Fixpoint scan (q : vec) (stored : list vec) (first : Z) : list hit :=
  match stored with
  | [] => []
  | v :: stored' => (l2sqr q v, first) :: scan q stored' (first + 1)
  end.

(** Insert before the first candidate that is not nearer. *)
Fixpoint insert (h : hit) (hs : list hit) : list hit :=
  match hs with
  | [] => [h]
  | h' :: hs' =>
      if Qle_bool (fst h) (fst h') then h :: hs else h' :: insert h hs'
  end.

(** All candidates, nearest first. *)
Definition ranked (hs : list hit) : list hit := fold_right insert [] hs.

Definition pad (k : nat) (hs : list hit) : list hit :=
  firstn k hs ++ repeat (FLT_MAX, (-1)%Z) (k - length hs).

(** Modelled from the spec: [index.search], the search routine of the FAISS
    index, is not under [src/].  Metric and ranking follow section 4.1 of
    the specification: squared Euclidean distance to every stored vector,
    the [k] smallest first, equal distances in insertion order.  The shape
    of the answer follows the call site, [D, I = index.search(q, k)], which
    reads row 0 of two arrays of [k] columns: when fewer than [k] vectors
    are stored the library fills the remaining columns with label [-1] and
    the largest [float32].  The result is the pair of rows [D[0]], [I[0]]. *)
Definition search (stored : list vec) (q : vec) (k : nat) : list Q * list Z :=
  let hits := pad k (ranked (scan q stored 0)) in
  (map fst hits, map snd hits).

End Faiss.

(** [Result]-style sequencing of fallible steps. *)
Definition bind {E A B} (x : E + A) (f : A -> E + B) : E + B :=
  match x with
  | inl e => inl e
  | inr a => f a
  end.

Fixpoint mapM {E A B} (f : A -> E + B) (xs : list A) : E + list B :=
  match xs with
  | [] => inr []
  | x :: xs' => bind (f x) (fun y => bind (mapM f xs') (fun ys => inr (y :: ys)))
  end.

(** A chat message: [{"role": ..., "content": ...}]. *)
Record chat_message : Type := Message { role : pystr; content : pystr }.

Section Pipeline.

(** [SentenceTransformer.encode] on one text. *)
Variable encode : pystr -> vec.

(** [chat(model="llama3.2", messages=messages)["message"]["content"]]. *)
Variable chat : list chat_message -> pystr.

(** [build_index]: the vectors stored in the index, one per chunk, and
    the chunks as they were given. *)
Definition build_index (chunks : list pystr) : list vec * list pystr :=
  (map encode chunks, chunks).

Definition get_context (question : pystr) (index : list vec)
    (chunks : list pystr) (top_k : nat) : PyError + (pystr * list Q) :=
  let q_embedding := encode question in
  let '(D0, I0) := Faiss.search index q_embedding top_k in
  bind (mapM (py_getitem chunks) I0) (fun texts =>
  inr (join [10] texts, D0)).

(** The default [top_k=5]. *)
Definition TOP_K : nat := 5.

Definition user_prompt (context user_message : pystr) : pystr :=
  py "Use this context to answer:" ++ [10] ++ context ++ [10; 10]
  ++ py "Question: " ++ user_message.

(** [chatbot]: returns [(reply, distances, context)] and the message list
    as the two [append] calls leave it. *)
Definition chatbot (user_message : pystr) (messages : list chat_message)
    (index : list vec) (chunks : list pystr)
  : PyError + (pystr * list Q * pystr * list chat_message) :=
  bind (get_context user_message index chunks TOP_K) (fun '(context, distances) =>
  let messages := messages ++ [Message (py "user") (user_prompt context user_message)] in
  let reply := chat messages in
  let messages := messages ++ [Message (py "assistant") reply] in
  inr (reply, distances, context, messages)).

End Pipeline.

(** ** JSON, as the [json] module reads and writes it

    [json.dumps] and [json.loads] with their default arguments
    ([ensure_ascii=True], separators [", "] and [": "], strict strings).
    A JSON number is a [Q]: an integer literal denotes itself, and what
    [float.__repr__] prints and [float()] reads is left to two parameters of
    the codec. *)
Module Json.

#[local] Set Warnings "-register-all".

Inductive value : Type :=
| Null
| Bool (b : bool)
| Num (x : Q)
| Str (s : pystr)
| Arr (xs : list value)
| Obj (members : list (pystr * value)).

(** *** Dictionaries in insertion order *)

Fixpoint dict_get (d : list (pystr * value)) (k : pystr) : option value :=
  match d with
  | [] => None
  | (k', v) :: d' => if decide (k' = k) then Some v else dict_get d' k
  end.

(** [d[k] = v]: an existing key keeps its place. *)
Fixpoint dict_set (k : pystr) (v : value) (d : list (pystr * value))
  : list (pystr * value) :=
  match d with
  | [] => [(k, v)]
  | (k', v') :: d' =>
      if decide (k' = k) then (k, v) :: d' else (k', v') :: dict_set k v d'
  end.

Definition dict_of_pairs (kvs : list (pystr * value)) : list (pystr * value) :=
  fold_left (fun d kv => dict_set (fst kv) (snd kv) d) kvs [].

(** *** Writing *)

Definition hex_digit (d : N) : N := if d <? 10 then 48 + d else 87 + d.

(** [format(n, "04x")] for [n < 65536]. *)
Definition hex4 (n : N) : pystr :=
  [hex_digit (n / 4096 mod 16); hex_digit (n / 256 mod 16);
   hex_digit (n / 16 mod 16); hex_digit (n mod 16)].

Definition escape_char (c : N) : pystr :=
  if c =? 34 then [92; 34]
  else if c =? 92 then [92; 92]
  else if c =? 10 then [92; 110]
  else if c =? 13 then [92; 114]
  else if c =? 9 then [92; 116]
  else if c =? 8 then [92; 98]
  else if c =? 12 then [92; 102]
  else if (32 <=? c) && (c <=? 126) then [c]
  else if c <? 65536 then [92; 117] ++ hex4 c
  else
    let v := c - 65536 in
    [92; 117] ++ hex4 (55296 + (v / 1024) mod 1024)
    ++ [92; 117] ++ hex4 (56320 + v mod 1024).

(** [encode_basestring_ascii]. *)
Definition encode_string (s : pystr) : pystr :=
  [34] ++ flat_map escape_char s ++ [34].

Section Codec.

(** [float.__repr__]. *)
Variable float_repr : Q -> pystr.

(** [float()] on a number literal with a fraction or an exponent, and on
    the constants [NaN], [Infinity] and [-Infinity]. *)
Variable float_of_literal : pystr -> Q.

Fixpoint dumps (v : value) : pystr :=
  match v with
  | Null => py "null"
  | Bool true => py "true"
  | Bool false => py "false"
  | Num x => float_repr x
  | Str s => encode_string s
  | Arr xs => [91] ++ join (py ", ") (map dumps xs) ++ [93]
  | Obj members =>
      [123]
      ++ join (py ", ")
           (map (fun kv => encode_string (fst kv) ++ py ": " ++ dumps (snd kv))
                members)
      ++ [125]
  end.

(** *** Reading *)

(** The decoder's [WHITESPACE]: space, tab, line feed, carriage return. *)
Definition is_ws (c : N) : bool :=
  (c =? 32) || (c =? 9) || (c =? 10) || (c =? 13).

Fixpoint skip_ws (s : pystr) : pystr :=
  match s with
  | c :: s' => if is_ws c then skip_ws s' else s
  | [] => []
  end.

Definition hex_value (c : N) : option N :=
  if in_range 48 57 c then Some (c - 48)
  else if in_range 97 102 c then Some (c - 87)
  else if in_range 65 70 c then Some (c - 55)
  else None.

Definition hex4_value (a b c d : N) : option N :=
  match hex_value a, hex_value b, hex_value c, hex_value d with
  | Some x, Some y, Some z, Some w => Some (((x * 16 + y) * 16 + z) * 16 + w)
  | _, _, _, _ => None
  end.

Definition is_high_surrogate (u : N) : bool := in_range 55296 56319 u.
Definition is_low_surrogate (u : N) : bool := in_range 56320 57343 u.

Definition join_surrogates (hi lo : N) : N :=
  65536 + ((hi - 55296) * 1024 + (lo - 56320)).

Definition simple_escape (e : N) : option N :=
  if e =? 34 then Some 34
  else if e =? 92 then Some 92
  else if e =? 47 then Some 47
  else if e =? 98 then Some 8
  else if e =? 102 then Some 12
  else if e =? 110 then Some 10
  else if e =? 114 then Some 13
  else if e =? 116 then Some 9
  else None.

Definition push (c : N) (r : option (pystr * pystr)) : option (pystr * pystr) :=
  match r with
  | Some (str, rest) => Some (c :: str, rest)
  | None => None
  end.

(** [scanstring], from the character after the opening quote: the
    decoded string and what follows the closing quote. *)
Fixpoint scanstring (s : pystr) : option (pystr * pystr) :=
  match s with
  | [] => None
  | c :: s1 =>
      if c =? 34 then Some ([], s1)
      else if c =? 92 then
        match s1 with
        | [] => None
        | e :: s2 =>
            if e =? 117 then
              match s2 with
              | a :: b :: c2 :: d :: s3 =>
                  match hex4_value a b c2 d with
                  | None => None
                  | Some u =>
                      match s3 with
                      | b1 :: u1 :: h1 :: h2 :: h3 :: h4 :: ((_ :: _) as s4) =>
                          if is_high_surrogate u && (b1 =? 92) && (u1 =? 117) then
                            match hex4_value h1 h2 h3 h4 with
                            | None => None
                            | Some u2 =>
                                if is_low_surrogate u2
                                then push (join_surrogates u u2) (scanstring s4)
                                else push u (scanstring s3)
                            end
                          else push u (scanstring s3)
                      | _ => push u (scanstring s3)
                      end
                  end
              | _ => None
              end
            else
              match simple_escape e with
              | Some c' => push c' (scanstring s2)
              | None => None
              end
        end
      else if c <? 32 then None
      else push c (scanstring s1)
  end.

Definition is_digit (c : N) : bool := in_range 48 57 c.

Fixpoint span_digits (s : pystr) : pystr * pystr :=
  match s with
  | c :: s' =>
      if is_digit c then let '(ds, rest) := span_digits s' in (c :: ds, rest)
      else ([], s)
  | [] => ([], [])
  end.

(** The integer part of [NUMBER_RE]: an optional minus sign, then
    either [0] or a digit [1]-[9] followed by any digits. *)
Definition scan_int (s : pystr) : option (pystr * pystr) :=
  let '(sign, s1) :=
    match s with
    | c :: t => if c =? 45 then ([45], t) else ([], s)
    | [] => ([], s)
    end in
  match s1 with
  | d :: t =>
      if d =? 48 then Some (sign ++ [48], t)
      else if in_range 49 57 d then
        let '(ds, rest) := span_digits t in Some (sign ++ d :: ds, rest)
      else None
  | [] => None
  end.

(** The optional fraction: a dot and at least one digit. *)
Definition scan_frac (s : pystr) : pystr * pystr :=
  match s with
  | c :: t =>
      if c =? 46 then
        match span_digits t with
        | ([], _) => ([], s)
        | (ds, rest) => (c :: ds, rest)
        end
      else ([], s)
  | [] => ([], s)
  end.

(** The optional exponent: [e] or [E], an optional sign, at least one
    digit. *)
Definition scan_exp (s : pystr) : pystr * pystr :=
  match s with
  | e :: t =>
      if (e =? 101) || (e =? 69) then
        let '(sign, t1) :=
          match t with
          | x :: t' => if (x =? 43) || (x =? 45) then ([x], t') else ([], t)
          | [] => ([], t)
          end in
        match span_digits t1 with
        | ([], _) => ([], s)
        | (ds, rest) => (e :: sign ++ ds, rest)
        end
      else ([], s)
  | [] => ([], s)
  end.

Definition digits_value (ds : pystr) : Z :=
  fold_left (fun acc d => (acc * 10 + Z.of_N (d - 48))%Z) ds 0%Z.

(** [int()] on what [scan_int] returns. *)
Definition int_of_literal (s : pystr) : Z :=
  match s with
  | c :: ds => if c =? 45 then (- digits_value ds)%Z else digits_value s
  | [] => 0%Z
  end.

Definition scan_number (s : pystr) : option (value * pystr) :=
  match scan_int s with
  | None => None
  | Some (integer, r1) =>
      let '(frac, r2) := scan_frac r1 in
      let '(exp, r3) := scan_exp r2 in
      match frac, exp with
      | [], [] => Some (Num (inject_Z (int_of_literal integer)), r3)
      | _, _ => Some (Num (float_of_literal (integer ++ frac ++ exp)), r3)
      end
  end.

Definition scan_constant (s : pystr) : option (value * pystr) :=
  if startswith s (py "null") then Some (Null, skipn 4 s)
  else if startswith s (py "true") then Some (Bool true, skipn 4 s)
  else if startswith s (py "false") then Some (Bool false, skipn 5 s)
  else if startswith s (py "NaN") then
    Some (Num (float_of_literal (py "NaN")), skipn 3 s)
  else if startswith s (py "Infinity") then
    Some (Num (float_of_literal (py "Infinity")), skipn 8 s)
  else if startswith s (py "-Infinity") then
    Some (Num (float_of_literal (py "-Infinity")), skipn 9 s)
  else scan_number s.

(** [scan_once] with [JSONArray] and [JSONObject]; [fuel] bounds the
    nesting of calls. *)
Fixpoint scan_once (fuel : nat) (s : pystr) : option (value * pystr) :=
  match fuel with
  | O => None
  | S fuel' =>
      match s with
      | [] => None
      | c :: s1 =>
          if c =? 34 then
            match scanstring s1 with
            | Some (str, rest) => Some (Str str, rest)
            | None => None
            end
          else if c =? 123 then
            match skip_ws s1 with
            | c1 :: rest =>
                if c1 =? 125 then Some (Obj [], rest)
                else
                  match scan_members fuel' (c1 :: rest) with
                  | Some (kvs, rest') => Some (Obj (dict_of_pairs kvs), rest')
                  | None => None
                  end
            | [] => None
            end
          else if c =? 91 then
            match skip_ws s1 with
            | c1 :: rest =>
                if c1 =? 93 then Some (Arr [], rest)
                else
                  match scan_elements fuel' (c1 :: rest) with
                  | Some (xs, rest') => Some (Arr xs, rest')
                  | None => None
                  end
            | [] => None
            end
          else scan_constant s
      end
  end

(** The loop of [JSONArray], from the first character of a value. *)
with scan_elements (fuel : nat) (s : pystr) : option (list value * pystr) :=
  match fuel with
  | O => None
  | S fuel' =>
      match scan_once fuel' s with
      | None => None
      | Some (v, rest) =>
          match skip_ws rest with
          | c :: rest1 =>
              if c =? 93 then Some ([v], rest1)
              else if c =? 44 then
                match scan_elements fuel' (skip_ws rest1) with
                | Some (vs, rest2) => Some (v :: vs, rest2)
                | None => None
                end
              else None
          | [] => None
          end
      end
  end

(** The loop of [JSONObject], from the opening quote of a key. *)
with scan_members (fuel : nat) (s : pystr)
  : option (list (pystr * value) * pystr) :=
  match fuel with
  | O => None
  | S fuel' =>
      match s with
      | q :: s1 =>
          if q =? 34 then
            match scanstring s1 with
            | None => None
            | Some (key, rest) =>
                match skip_ws rest with
                | c :: rest1 =>
                    if c =? 58 then
                      match scan_once fuel' (skip_ws rest1) with
                      | None => None
                      | Some (v, rest2) =>
                          match skip_ws rest2 with
                          | c2 :: rest3 =>
                              if c2 =? 125 then Some ([(key, v)], rest3)
                              else if c2 =? 44 then
                                match scan_members fuel' (skip_ws rest3) with
                                | Some (kvs, rest4) => Some ((key, v) :: kvs, rest4)
                                | None => None
                                end
                              else None
                          | [] => None
                          end
                      end
                    else None
                | [] => None
                end
            end
          else None
      | [] => None
      end
  end.

(** [json.loads]: one value between optional white space, nothing
    after it. *)
Definition loads (s : pystr) : PyError + value :=
  match scan_once (S (length s)) (skip_ws s) with
  | Some (v, rest) =>
      match skip_ws rest with
      | [] => inr v
      | _ :: _ => inl JSONDecodeError
      end
  | None => inl JSONDecodeError
  end.

End Codec.

End Json.

(** ** The chat endpoint ([src/app.py], lines 83-204) *)

Definition SYSTEM_PROMPT : pystr :=
    py "You are an administrative assistant for the Knox College Center " ++
    py "for Teaching and Learning (CTL). Your job is ONLY to help Knox " ++
    py "students understand:" ++ [10] ++ py "- when and where tutors are available," ++ [10] ++
    py "- what subjects they cover," ++ [10] ++ py "- how to get help or schedule tutoring." ++
    [10; 10] ++ py "CRITICAL BEHAVIOR:" ++ [10] ++
    py "- If the question is about tutoring, subjects, specific tutors " ++
    py "(for example: 'Vansh Chugh'), availability, locations, scheduling, " ++
    py "appointments, CTL services, academic support, study skills, " ++
    py "or Knox classes: ANSWER it using the provided context." ++ [10] ++
    py "- If the question is clearly NOT academic or CTL-related (for " ++
    py "example: weather, sports scores, celebrities, world news), DO " ++
    py "NOT guess. In that case, reply normally if you can, but then " ++
    py "ADD THIS EXACT SENTENCE at the end:" ++ [10; 34] ++
    py "I'm not sure about that because it's outside CTL's tutoring " ++
    py "info. I can get a person to follow up if you want." ++ [34; 10; 10] ++
    py "FORMAT RULES:" ++ [10] ++ py "- Respond in clear, structured Markdown." ++ [10] ++
    py "- Use bullet points for multiple tutors or schedules." ++ [10] ++
    py "- Bold tutor names." ++ [10] ++ py "- Put blank lines between different tutors." ++ [10] ++
    py "- Include calendar links when available." ++ [10] ++
    py "- Be warm, encouraging, and student-friendly.".

Definition INTRO : pystr :=
    py "Hi! I'm the CTL tutoring assistant for Knox College. I can help " ++
    py "you find tutors, subjects, and availability." ++ [10; 10] ++
    py "Before we get started, what's your Knox email so we can follow " ++ py "up if needed?" ++
    [10] ++ py "(Example: yourname@knox.edu)".

Definition confirm_msg (email : pystr) : pystr :=
    py "Thanks! I've got your email as " ++ email ++
    py "." ++ [10; 10] ++ py "How can I help you today? (For example: 'When is math tutoring " ++
    py "available?' or 'How do I book with Vansh Chugh?')".

Definition NEED_EMAIL_MSG : pystr :=
    py "I just need your Knox email (like yourname@knox.edu) so we can " ++
    py "follow up with you." ++ [10] ++ py "Could you enter that first?".

(** The sentence that replaces an out-of-scope reply (the source file holds
    it with these code points). *)
Definition FLAGGED_REPLY : pystr :=
    py "I'm not completely sure about that " ++ [226; 8364; 8221] ++
    py " it may be outside what I know for CTL tutoring. I" ++ [226; 8364; 8482] ++
    py "ve flagged this so a staff member can follow up.".

Record ChatRequest : Type := { user_id : pystr; message : pystr }.

(** The two module-level dictionaries.  [student_emails] holds [None] until
    the address is known. *)
Record AppState : Type := {
  conversations : gmap pystr (list chat_message);
  student_emails : gmap pystr (option pystr);
}.

Definition initial_state : AppState :=
  {| conversations := ∅; student_emails := ∅ |}.

(** The arguments of one [background_tasks.add_task(save_escalation_to_file, ...)].
    [convo] is the conversation list itself; nothing changes it between the
    call and the end of the request, after which the task runs. *)
Record EscalationTask : Type := {
  task_user_id : pystr;
  task_question : pystr;
  task_reply : pystr;
  task_context : pystr;
  task_distances : list Q;
  task_convo : list chat_message;
  task_student_email : option pystr;
}.

Section Endpoint.

Variable encode : pystr -> vec.
Variable chat : list chat_message -> pystr.

(** The knowledge base loaded at start-up. *)
Variable chunks : list pystr.

Definition index : list vec := fst (build_index encode chunks).

(** [get_response]: the text of the [ChatResponse], the tasks handed to
    [background_tasks], and the state the call leaves.  An exception leaves
    the state as it was: the only one raised, in [get_context], comes
    before any update. *)
Definition get_response (st : AppState) (request : ChatRequest)
  : PyError + (pystr * list EscalationTask * AppState) :=
  let uid := user_id request in
  match conversations st !! uid with
  | None =>
      inr (INTRO, [],
           {| conversations :=
                <[uid := [Message (py "system") SYSTEM_PROMPT]]> (conversations st);
              student_emails := <[uid := None]> (student_emails st) |})
  | Some messages =>
      match student_emails st !! uid with
      | None => inl KeyError
      | Some None =>
          if is_knox_email (message request) then
            let email := strip (message request) in
            inr (confirm_msg email, [],
                 {| conversations := conversations st;
                    student_emails := <[uid := Some email]> (student_emails st) |})
          else inr (NEED_EMAIL_MSG, [], st)
      | Some (Some email) =>
          bind (chatbot encode chat (message request) messages index chunks)
            (fun '(reply, distances, context, messages') =>
          let st' := {| conversations := <[uid := messages']> (conversations st);
                        student_emails := student_emails st |} in
          let bot_flagged := bot_flagged_out_of_scope reply in
          let low_conf := should_log_low_conf distances in
          let trigger := bot_flagged || low_conf in
          if trigger then
            let task := {| task_user_id := uid;
                           task_question := message request;
                           task_reply := reply;
                           task_context := context;
                           task_distances := distances;
                           task_convo := messages';
                           task_student_email := Some email |} in
            inr (if bot_flagged then FLAGGED_REPLY else reply, [task], st')
          else inr (reply, [], st'))
      end
  end.

End Endpoint.

(** The onboarding state of a user, read off the two dictionaries
    ([None]: the user has a conversation and no entry in [student_emails],
    which no run reaches). *)
Inductive Onboarding : Type :=
| New
| AwaitingEmail
| Ready (email : pystr).

Definition onboarding (st : AppState) (uid : pystr) : option Onboarding :=
  match conversations st !! uid with
  | None => Some New
  | Some _ =>
      match student_emails st !! uid with
      | Some None => Some AwaitingEmail
      | Some (Some email) => Some (Ready email)
      | None => None
      end
  end.

Definition is_ready (st : AppState) (uid : pystr) : bool :=
  match onboarding st uid with
  | Some (Ready _) => true
  | _ => false
  end.

Section Runs.

Variable encode : pystr -> vec.
Variable chat : list chat_message -> pystr.
Variable chunks : list pystr.

(** The state after one request. *)
Definition next_state (st : AppState) (request : ChatRequest) : AppState :=
  match get_response encode chat chunks st request with
  | inl _ => st
  | inr (_, _, st') => st'
  end.

(** The state after a sequence of requests. *)
Definition run (st : AppState) (requests : list ChatRequest) : AppState :=
  fold_left next_state requests st.

(** The number of requests of [uid] that arrive while [uid] is [Ready]. *)
Fixpoint ready_turns (st : AppState) (requests : list ChatRequest) (uid : pystr)
  : nat :=
  match requests with
  | [] => 0
  | request :: requests' =>
      (if decide (user_id request = uid) then
         if is_ready st uid then 1 else 0
       else 0)%nat
      + ready_turns (next_state st request) requests' uid
  end.

End Runs.

(** A history of the shape the specification describes: the system message,
    then one user message and one assistant message per exchange. *)
Definition exchange_messages (e : pystr * pystr) : list chat_message :=
  [Message (py "user") (fst e); Message (py "assistant") (snd e)].

Definition history_of (exchanges : list (pystr * pystr)) : list chat_message :=
  Message (py "system") SYSTEM_PROMPT :: flat_map exchange_messages exchanges.

(** ** The escalation log ([src/app.py], lines 37-76) and the review page
    (lines 220-355) *)

Section Log.

Variable float_repr : Q -> pystr.
Variable float_of_literal : pystr -> Q.

(** [str()] of a list or of a dictionary. *)
Variable container_repr : Json.value -> pystr.

Definition dumps : Json.value -> pystr := Json.dumps float_repr.
Definition loads : pystr -> PyError + Json.value := Json.loads float_of_literal.

Definition message_json (m : chat_message) : Json.value :=
  Json.Obj [(py "role", Json.Str (role m)); (py "content", Json.Str (content m))].

Definition optional_str_json (s : option pystr) : Json.value :=
  match s with
  | Some s => Json.Str s
  | None => Json.Null
  end.

(** The dictionary [payload]; [now] is [datetime.datetime.utcnow().isoformat()]. *)
Definition payload (now user_id question reply context : pystr)
    (distances : list Q) (convo : list chat_message)
    (student_email : option pystr) : Json.value :=
  Json.Obj
    [(py "timestamp", Json.Str (now ++ py "Z"));
     (py "user_id", Json.Str user_id);
     (py "student_email", optional_str_json student_email);
     (py "question", Json.Str question);
     (py "reply", Json.Str reply);
     (py "context", Json.Str context);
     (py "distances", Json.Arr (map Json.Num distances));
     (py "conversation", Json.Arr (map message_json convo))].

(** The log file: [None] while it does not exist, else its text. *)
Definition append_text (file : option pystr) (text : pystr) : option pystr :=
  match file with
  | None => Some text
  | Some old => Some (old ++ text)
  end.

Definition save_escalation_to_file (now user_id question reply context : pystr)
    (distances : list Q) (convo : list chat_message)
    (student_email : option pystr) (file : option pystr) : option pystr :=
  let payload :=
    payload now user_id question reply context distances convo student_email in
  append_text file (dumps payload ++ [10]).

(** Iterating over a file opened in text mode: a line ends at [\n], at
    [\r\n] or at [\r], each read as [\n]; the last line may have no end. *)
Fixpoint readlines_from (line : pystr) (text : pystr) : list pystr :=
  match text with
  | [] => match line with [] => [] | _ :: _ => [line] end
  | c :: text' =>
      if c =? 10 then (line ++ [10]) :: readlines_from [] text'
      else if c =? 13 then
        match text' with
        | c' :: text'' =>
            if c' =? 10 then (line ++ [10]) :: readlines_from [] text''
            else (line ++ [10]) :: readlines_from [] text'
        | [] => [line ++ [10]]
        end
      else readlines_from (line ++ [c]) text'
  end.

Definition readlines (text : pystr) : list pystr := readlines_from [] text.

(** The body of the [for] loop of [load_escalations]. *)
Definition load_line (records : list Json.value) (line : pystr) : list Json.value :=
  let line := strip line in
  match line with
  | [] => records
  | _ :: _ =>
      match loads line with
      | inr record => records ++ [record]
      | inl _ => records
      end
  end.

Definition load_escalations (file : option pystr) : list Json.value :=
  match file with
  | None => []
  | Some text => fold_left load_line (readlines text) []
  end.

(** *** The review page *)

(** [item.get(key, default)]; only a dictionary has [get]. *)
Definition py_get (item : Json.value) (key : pystr) (default : Json.value)
  : PyError + Json.value :=
  match item with
  | Json.Obj d =>
      match Json.dict_get d key with
      | Some v => inr v
      | None => inr default
      end
  | _ => inl AttributeError
  end.

(** [str(v)], as an f-string formats a value. *)
Definition py_str (v : Json.value) : pystr :=
  match v with
  | Json.Null => py "None"
  | Json.Bool true => py "True"
  | Json.Bool false => py "False"
  | Json.Num x => float_repr x
  | Json.Str s => s
  | Json.Arr _ | Json.Obj _ => container_repr v
  end.

(** Truth value of an object. *)
Definition truthy (v : Json.value) : bool :=
  match v with
  | Json.Null => false
  | Json.Bool b => b
  | Json.Num x => negb (Qeq_bool x 0)
  | Json.Str s => match s with [] => false | _ => true end
  | Json.Arr xs => match xs with [] => false | _ => true end
  | Json.Obj d => match d with [] => false | _ => true end
  end.

(** [s[:n] + suffix] on a string. *)
Definition slice_plus (v : Json.value) (n : nat) (suffix : pystr) : PyError + pystr :=
  match v with
  | Json.Str s => inr (firstn n s ++ suffix)
  | _ => inl TypeError
  end.

(** [s.replace("<", "&lt;")] on a string. *)
Definition escape_lt (v : Json.value) : PyError + pystr :=
  match v with
  | Json.Str s => inr (replace_char 60 (py "&lt;") s)
  | _ => inl AttributeError
  end.

Definition number_of (v : Json.value) : PyError + Q :=
  match v with
  | Json.Num x => inr x
  | Json.Bool true => inr 1%Q
  | Json.Bool false => inr 0%Q
  | _ => inl TypeError
  end.

(** [round(x, 3)]: to the nearest multiple of 1/1000, ties to even. *)
Definition round3 (x : Q) : Q :=
  let y := (x * 1000)%Q in
  let lo := Qfloor y in
  let rest := (y - inject_Z lo)%Q in
  let n :=
    if Qgtb rest (1#2) then (lo + 1)%Z
    else if Qgtb (1#2) rest then lo
    else if Z.even lo then lo else (lo + 1)%Z in
  (inject_Z n / 1000)%Q.

(** The cell [avg_dist], formatted. *)
Definition avg_dist (distances : Json.value) : PyError + pystr :=
  if truthy distances then
    match distances with
    | Json.Arr xs =>
        bind (mapM number_of xs) (fun ds =>
        inr (float_repr (round3 (py_sum ds / py_len ds))))
    | _ => inl TypeError
    end
  else inr (py "n/a").

Definition ELLIPSIS : pystr := [226; 8364; 166].

(** The character budget of the context preview. *)
Definition PREVIEW_CHARS : nat := 300.

(** The f-string of one table row. *)
Definition row_html (ts user_id email avg_dist question reply context_preview : pystr)
  : pystr :=
  [10] ++ py "        <tr>" ++ [10] ++ py "          <td style=" ++ [34] ++
  py "vertical-align:top; padding:8px; border-bottom:1px solid #ddd;" ++ [34] ++ py ">" ++
  [10] ++ py "            <div><b>Time:</b> " ++ ts ++
  py "</div>" ++ [10] ++ py "            <div><b>User ID:</b> " ++ user_id ++
  py "</div>" ++ [10] ++ py "            <div><b>Email:</b> " ++ email ++
  py "</div>" ++ [10] ++ py "            <div><b>Avg FAISS Dist:</b> " ++ avg_dist ++
  py "</div>" ++ [10] ++ py "          </td>" ++ [10; 10] ++ py "          <td style=" ++ [34] ++
  py "vertical-align:top; padding:8px; border-bottom:1px solid #ddd;" ++ [34] ++ py ">" ++
  [10] ++ py "            <div style=" ++ [34] ++ py "font-weight:600; margin-bottom:4px;" ++
  [34] ++ py ">Student asked:</div>" ++ [10] ++ py "            <div style=" ++ [34] ++
  py "white-space:pre-wrap;" ++ [34] ++ py ">" ++ question ++
  py "</div>" ++ [10; 10] ++ py "            <div style=" ++ [34] ++
  py "font-weight:600; margin:12px 0 4px;" ++ [34] ++ py ">Bot replied:</div>" ++ [10] ++
  py "            <div style=" ++ [34] ++ py "white-space:pre-wrap; color:#444;" ++ [34] ++
  py ">" ++ reply ++
  py "</div>" ++ [10] ++ py "          </td>" ++ [10; 10] ++ py "          <td style=" ++ [34] ++
  py "vertical-align:top; padding:8px; border-bottom:1px solid #ddd;" ++ [34] ++ py ">" ++
  [10] ++ py "            <div style=" ++ [34] ++ py "font-weight:600; margin-bottom:4px;" ++
  [34] ++ py ">RAG context excerpt:</div>" ++ [10] ++ py "            <div style=" ++ [34] ++
  py "font-size:13px; line-height:1.4; color:#555; white-space:pre-wrap;" ++ [34] ++ py ">" ++
  [10] ++ py "              " ++ context_preview ++
  [10] ++ py "            </div>" ++ [10] ++ py "          </td>" ++ [10] ++
  py "        </tr>" ++ [10] ++ py "        ".

(** The cells of one row, as the loop body computes them. *)
Record Row : Type := {
  row_ts : pystr;
  row_user_id : pystr;
  row_email : pystr;
  row_avg_dist : pystr;
  row_question : pystr;
  row_reply : pystr;
  row_context_preview : pystr;
}.

Definition review_row (item : Json.value) : PyError + Row :=
  bind (py_get item (py "timestamp") (Json.Str (py "n/a"))) (fun ts =>
  bind (py_get item (py "user_id") (Json.Str (py "n/a"))) (fun user_id =>
  bind (py_get item (py "student_email") (Json.Str (py "n/a"))) (fun email =>
  bind (py_get item (py "question") (Json.Str [])) (fun question =>
  bind (py_get item (py "reply") (Json.Str [])) (fun reply =>
  bind (py_get item (py "context") (Json.Str [])) (fun context =>
  bind (slice_plus context PREVIEW_CHARS ELLIPSIS) (fun context_preview =>
  bind (py_get item (py "distances") (Json.Arr [])) (fun distances =>
  bind (escape_lt question) (fun question =>
  bind (escape_lt reply) (fun reply =>
  bind (escape_lt (Json.Str context_preview)) (fun context_preview =>
  bind (avg_dist distances) (fun avg_dist =>
  inr {| row_ts := py_str ts;
         row_user_id := py_str user_id;
         row_email := py_str email;
         row_avg_dist := avg_dist;
         row_question := question;
         row_reply := reply;
         row_context_preview := context_preview |})))))))))))).

Definition render_row (r : Row) : pystr :=
  row_html (row_ts r) (row_user_id r) (row_email r) (row_avg_dist r)
    (row_question r) (row_reply r) (row_context_preview r).

Definition NO_ROWS_HTML : pystr :=
  [10] ++ py "        <tr>" ++ [10] ++ py "          <td colspan=" ++ [34] ++ py "3" ++ [34] ++
  py " style=" ++ [34] ++ py "padding:20px; text-align:center; color:#666;" ++ [34] ++ py ">" ++
  [10] ++ py "            No escalations yet " ++ [240; 376; 381; 8240; 10] ++
  py "          </td>" ++ [10] ++ py "        </tr>" ++ [10] ++ py "        ".

Definition PAGE_HEAD : pystr :=
  [10] ++ py "    <!DOCTYPE html>" ++ [10] ++ py "    <html lang=" ++ [34] ++ py "en" ++ [34] ++
  py ">" ++ [10] ++ py "    <head>" ++ [10] ++ py "      <meta charset=" ++ [34] ++ py "utf-8" ++
  [34] ++ py " />" ++ [10] ++ py "      <title>CTL Chatbot Escalations</title>" ++ [10] ++
  py "      <style>" ++ [10] ++ py "        body {" ++ [10] ++
  py "          font-family: system-ui, -apple-system, BlinkMacSystemFont, " ++ [34] ++
  py "Segoe UI" ++ [34] ++ py ", Roboto, sans-serif;" ++ [10] ++
  py "          background: #f5f5f5;" ++ [10] ++ py "          padding: 40px;" ++ [10] ++
  py "          color: #222;" ++ [10] ++ py "        }" ++ [10; 10] ++ py "        .card {" ++
  [10] ++ py "          max-width: 1100px;" ++ [10] ++ py "          margin: 0 auto;" ++ [10] ++
  py "          background: #fff;" ++ [10] ++ py "          border-radius: 12px;" ++ [10] ++
  py "          box-shadow: 0 8px 24px rgba(0,0,0,0.08);" ++ [10] ++
  py "          border: 1px solid #ddd;" ++ [10] ++ py "          overflow: hidden;" ++ [10] ++
  py "        }" ++ [10; 10] ++ py "        .header {" ++ [10] ++
  py "          background: #b30000;" ++ [10] ++ py "          color: #fff;" ++ [10] ++
  py "          padding: 16px 20px;" ++ [10] ++ py "          font-size: 18px;" ++ [10] ++
  py "          font-weight: 600;" ++ [10] ++ py "          letter-spacing: 0.3px;" ++ [10] ++
  py "          border-bottom: 3px solid #fff;" ++ [10] ++ py "        }" ++ [10; 10] ++
  py "        table {" ++ [10] ++ py "          border-collapse: collapse;" ++ [10] ++
  py "          width: 100%;" ++ [10] ++ py "          font-size: 14px;" ++ [10] ++
  py "        }" ++ [10; 10] ++ py "        th {" ++ [10] ++ py "          text-align: left;" ++
  [10] ++ py "          background: #fafafa;" ++ [10] ++
  py "          border-bottom: 1px solid #ddd;" ++ [10] ++ py "          color: #444;" ++ [10] ++
  py "          font-weight: 600;" ++ [10] ++ py "          padding: 10px 8px;" ++ [10] ++
  py "          vertical-align: top;" ++ [10] ++ py "        }" ++ [10] ++ py "      </style>" ++
  [10] ++ py "    </head>" ++ [10] ++ py "    <body>" ++ [10] ++ py "      <div class=" ++
  [34] ++ py "card" ++ [34] ++ py ">" ++ [10] ++ py "        <div class=" ++ [34] ++
  py "header" ++ [34] ++ py ">CTL Chatbot " ++ [226; 8364; 8220] ++
  py " Escalations Review</div>" ++ [10] ++ py "        <table>" ++ [10] ++
  py "          <thead>" ++ [10] ++ py "            <tr>" ++ [10] ++
  py "              <th style=" ++ [34] ++ py "width:200px;" ++ [34] ++ py ">Meta</th>" ++
  [10] ++ py "              <th style=" ++ [34] ++ py "width:400px;" ++ [34] ++
  py ">Conversation Snapshot</th>" ++ [10] ++
  py "              <th>Retrieved CTL Context (preview)</th>" ++ [10] ++
  py "            </tr>" ++ [10] ++ py "          </thead>" ++ [10] ++ py "          <tbody>" ++
  [10] ++ py "            ".

Definition PAGE_TAIL : pystr :=
  [10] ++ py "          </tbody>" ++ [10] ++ py "        </table>" ++ [10] ++
  py "      </div>" ++ [10] ++ py "    </body>" ++ [10] ++ py "    </html>" ++ [10] ++ py "    ".

(** The rows of the table, in the order they are written to the page. *)
Definition review_rows (data : list Json.value) : PyError + list Row :=
  mapM review_row (rev data).

(** [review_escalations]: the content of the [HTMLResponse]. *)
Definition review_escalations (file : option pystr) : PyError + pystr :=
  let data := load_escalations file in
  bind (review_rows data) (fun rows =>
  let rows_html := concat (map render_row rows) in
  let rows_html := match rows_html with [] => NO_ROWS_HTML | _ :: _ => rows_html end in
  inr (PAGE_HEAD ++ rows_html ++ PAGE_TAIL)).

End Log.

(** ** The server: a request, then its background tasks *)

Section Server.

Variable encode : pystr -> vec.
Variable chat : list chat_message -> pystr.
Variable chunks : list pystr.
Variable float_repr : Q -> pystr.

Definition run_task (now : pystr) (file : option pystr) (t : EscalationTask)
  : option pystr :=
  save_escalation_to_file float_repr now (task_user_id t) (task_question t)
    (task_reply t) (task_context t) (task_distances t) (task_convo t)
    (task_student_email t) file.

(** One [POST /chat] at clock reading [now]: the response (or the exception
    that ends the request), the new state and the new log file. *)
Definition serve (st : AppState) (file : option pystr) (now : pystr)
    (request : ChatRequest)
  : (PyError + pystr) * AppState * option pystr :=
  match get_response encode chat chunks st request with
  | inl e => (inl e, st, file)
  | inr (response, tasks, st') =>
      (inr response, st', fold_left (run_task now) tasks file)
  end.

(** A sequence of requests, each with its clock reading. *)
Fixpoint serve_all (st : AppState) (file : option pystr)
    (requests : list (pystr * ChatRequest)) : AppState * option pystr :=
  match requests with
  | [] => (st, file)
  | (now, request) :: requests' =>
      let '(_, st', file') := serve st file now request in
      serve_all st' file' requests'
  end.

End Server.

(** *** The ranking in the specification's words *)

(** One result is ranked before another: it is nearer, or as near and
    inserted earlier. *)
Definition ranked_before (h1 h2 : Q * Z) : Prop :=
  (fst h1 < fst h2)%Q \/ ((fst h1 == fst h2)%Q /\ (snd h1 < snd h2)%Z).

(** ** A small instance, for examples

    A one-dimensional embedder (the length of the text), a knowledge base of
    six chunks, a generative model that answers questions about the weather
    with the out-of-scope sentence, and a float printer for whole numbers
    ([625.0]). *)

Definition example_encode (text : pystr) : vec :=
  [inject_Z (Z.of_nat (length text))].

Definition example_chunks : list pystr :=
  [py "Math tutoring: Mon 7-9pm, SMC"; py "Writing help"; py "Chemistry: Tue";
   py "Physics: Wed 4pm"; py "CS tutoring: Thu"; py "Book online"].

Definition example_chat (messages : list chat_message) : pystr :=
  match last messages with
  | Some m =>
      if contains (py "weather") (content m)
      then py "It may rain. I'm not sure about that because it's outside CTL's tutoring info."
      else py "**Math** tutoring is on Monday."
  | None => []
  end.

Fixpoint digits_of_uint (d : Decimal.uint) : pystr :=
  match d with
  | Decimal.Nil => []
  | Decimal.D0 d' => 48 :: digits_of_uint d'
  | Decimal.D1 d' => 49 :: digits_of_uint d'
  | Decimal.D2 d' => 50 :: digits_of_uint d'
  | Decimal.D3 d' => 51 :: digits_of_uint d'
  | Decimal.D4 d' => 52 :: digits_of_uint d'
  | Decimal.D5 d' => 53 :: digits_of_uint d'
  | Decimal.D6 d' => 54 :: digits_of_uint d'
  | Decimal.D7 d' => 55 :: digits_of_uint d'
  | Decimal.D8 d' => 56 :: digits_of_uint d'
  | Decimal.D9 d' => 57 :: digits_of_uint d'
  end.

Definition example_float_repr (x : Q) : pystr :=
  let n := Qfloor x in
  (if (n <? 0)%Z then [45] else [])
  ++ digits_of_uint (N.to_uint (Z.abs_N n)) ++ py ".0".

Definition example_float_of_literal (s : pystr) : Q :=
  match Json.scan_int s with
  | Some (integer, _) => inject_Z (Json.int_of_literal integer)
  | None => 0%Q
  end.

Definition example_container_repr (v : Json.value) : pystr := py "[...]".

Definition example_request (uid text : string) : ChatRequest :=
  {| user_id := py uid; message := py text |}.

(** A user who has been greeted, and the same user after giving an address. *)
Definition example_awaiting_state : AppState :=
  run example_encode example_chat example_chunks initial_state
    [example_request "u1" "hello"].

Definition example_ready_state : AppState :=
  run example_encode example_chat example_chunks example_awaiting_state
    [example_request "u1" " Bob@knox.edu "].

(** ** Well-formed log data, in the specification's words *)

(** A Unicode scalar value: a code point that is not a surrogate. *)
Definition is_scalar (c : N) : bool := (c <? 55296) || ((57344 <=? c) && (c <? 1114112)).

(** Text made of scalar values (any string decoded from UTF-8 is). *)
Definition scalar_text (s : pystr) : Prop := Forall (fun c => is_scalar c = true) s.

Section WellFormed.

Variable float_repr : Q -> pystr.
Variable float_of_literal : pystr -> Q.

(** [s] is, as a whole, a number literal with a fraction or an exponent. *)
Definition is_float_literal (s : pystr) : bool :=
  match Json.scan_int s with
  | Some (_, r1) =>
      let '(frac, r2) := Json.scan_frac r1 in
      let '(exp, r3) := Json.scan_exp r2 in
      match r3, frac ++ exp with
      | [], _ :: _ => true
      | _, _ => false
      end
  | None => false
  end.

(** [repr] prints [x] as a float literal that [float()] reads back as [x]. *)
Definition float_round_trips (x : Q) : Prop :=
  is_float_literal (float_repr x) = true
  /\ float_of_literal (float_repr x) = x.

(** A JSON value that [dumps] writes faithfully: strings of scalar values,
    numbers that [repr] round-trips, objects without repeated keys. *)
Fixpoint wf_value (v : Json.value) : Prop :=
  match v with
  | Json.Null | Json.Bool _ => True
  | Json.Num x => float_round_trips x
  | Json.Str s => scalar_text s
  | Json.Arr xs =>
      (fix all (xs : list Json.value) : Prop :=
         match xs with
         | [] => True
         | x :: xs' => wf_value x /\ all xs'
         end) xs
  | Json.Obj members =>
      NoDup (map fst members)
      /\ (fix all (members : list (pystr * Json.value)) : Prop :=
            match members with
            | [] => True
            | kv :: members' => scalar_text (fst kv) /\ wf_value (snd kv) /\ all members'
            end) members
  end.

(** What the endpoint hands to the log: text of scalar values, distances
    that [repr] round-trips. *)
Definition wf_message (m : chat_message) : Prop :=
  scalar_text (role m) /\ scalar_text (content m).

Definition wf_task (t : EscalationTask) : Prop :=
  scalar_text (task_user_id t)
  /\ scalar_text (task_question t)
  /\ scalar_text (task_reply t)
  /\ scalar_text (task_context t)
  /\ Forall float_round_trips (task_distances t)
  /\ Forall wf_message (task_convo t)
  /\ match task_student_email t with
     | Some email => scalar_text email
     | None => True
     end.

End WellFormed.

(** The number of calls the scanner makes to read a value back. *)
Fixpoint scan_calls (v : Json.value) : nat :=
  match v with
  | Json.Arr xs =>
      S ((fix sum (xs : list Json.value) : nat :=
            match xs with
            | [] => 0
            | x :: xs' => S (scan_calls x + sum xs')
            end) xs)
  | Json.Obj members =>
      S ((fix sum (members : list (pystr * Json.value)) : nat :=
            match members with
            | [] => 0
            | kv :: members' => S (scan_calls (snd kv) + sum members')
            end) members)
  | _ => 1
  end%nat.

(** The record that [run_task] writes. *)
Definition record_of (now : pystr) (t : EscalationTask) : Json.value :=
  payload now (task_user_id t) (task_question t) (task_reply t) (task_context t)
    (task_distances t) (task_convo t) (task_student_email t).

(** Writing a sequence of records, each with its clock reading. *)
Definition write_all (float_repr : Q -> pystr) (file : option pystr)
    (writes : list (pystr * EscalationTask)) : option pystr :=
  fold_left (fun file w => run_task float_repr (fst w) file (snd w)) writes file.

(** What may follow a value inside a JSON text written by [dumps]: nothing,
    a comma, or a closing bracket or brace. *)
Definition delimited (rest : pystr) : bool :=
  match rest with
  | [] => true
  | c :: _ => (c =? 44) || (c =? 93) || (c =? 125)
  end.

(** Printable ASCII other than the space. *)
Definition is_graphic (c : N) : bool := in_range 33 126 c.

Definition elements_calls (xs : list Json.value) : nat :=
  fold_right (fun x n => S (scan_calls x + n)) 0%nat xs.

Definition members_calls (members : list (pystr * Json.value)) : nat :=
  fold_right (fun kv n => S (scan_calls (snd kv) + n)) 0%nat members.

(** One member of an object, as [dumps] writes it. *)
Definition dumps_member (float_repr : Q -> pystr) (kv : pystr * Json.value) : pystr :=
  Json.encode_string (fst kv) ++ py ": " ++ Json.dumps float_repr (snd kv).

(** A value is read back: scanning what [dumps] wrote, followed by a
    delimiter, returns the value and stops at the delimiter. *)
Definition reads_back (float_repr : Q -> pystr) (float_of_literal : pystr -> Q)
    (v : Json.value) : Prop :=
  forall fuel rest,
    (scan_calls v <= fuel)%nat -> delimited rest = true ->
    Json.scan_once float_of_literal fuel (Json.dumps float_repr v ++ rest)
    = Some (v, rest).

(** A text that is a sequence of whole lines. *)
Definition whole_lines (file : option pystr) : Prop :=
  match file with
  | None => True
  | Some text => text = [] \/ exists t, text = t ++ [10]
  end.

(** A line as the specification means it: no line break inside. *)
Definition one_line (line : pystr) : Prop :=
  Forall (fun c => c <> 10 /\ c <> 13) line.

(** Printable ASCII, the space included. *)
Definition printable (c : N) : Prop := 32 <= c <= 126.

(** ** The review page, in the specification's words *)

(** [<] replaced by [&lt;]. *)
Definition escaped (s : pystr) : pystr := replace_char 60 (py "&lt;") s.

(** The preview of a context: its first 300 characters and the ellipsis. *)
Definition preview (context : pystr) : pystr := firstn PREVIEW_CHARS context ++ ELLIPSIS.

(** The row expected for a record written at [now] from task [t]. *)
Definition row_of (float_repr : Q -> pystr) (now : pystr) (t : EscalationTask) : Row :=
  {| row_ts := now ++ py "Z";
     row_user_id := task_user_id t;
     row_email := match task_student_email t with
                  | Some email => email
                  | None => py "None"
                  end;
     row_avg_dist := match task_distances t with
                     | [] => py "n/a"
                     | ds => float_repr (round3 (py_sum ds / py_len ds))
                     end;
     row_question := escaped (task_question t);
     row_reply := escaped (task_reply t);
     row_context_preview := escaped (preview (task_context t)) |}.

(** One escalation, for examples. *)
Definition example_task : EscalationTask :=
  {| task_user_id := py "u1";
     task_question := py "Is 2 < 3 in <b>math</b>?";
     task_reply := py "Yes <ok>, but that is outside CTL's tutoring info.";
     task_context := py "Math tutoring: Mon 7-9pm, SMC" ++ [10] ++ py "a < b";
     task_distances := [16; 36]%Q;
     task_convo := history_of [(py "Is 2 < 3?", py "Yes.")];
     task_student_email := Some (py "bob@knox.edu") |}.

Definition example_writes : list (pystr * EscalationTask) :=
  [(py "2025-01-01T10:00:00", example_task);
   (py "2025-01-02T11:30:00.250000", example_task)].

(** ** The command line ([src/cli.py], lines 3-32) *)

Definition CLI_SYSTEM_PROMPT : pystr :=
    py "You are an administrative assistant for the Knox College Center " ++
    py "for Teaching and Learning (CTL). Your job is to help students " ++
    py "understand when and where tutors are available, what subjects " ++
    py "they cover, and how students can schedule appointments with " ++
    py "them. Respond in **clear, structured Markdown format** for readability " ++ [8212] ++
    py " use:" ++ [10] ++ py "- Bullet points for multiple tutors or schedules" ++ [10] ++
    py "- Bold names for tutors" ++ [10] ++ py "- Blank lines between different entries" ++ [10] ++
    py "- Hyperlinked calendar URLs if available" ++ [10; 10] ++
    py "Keep your tone warm, clear, and helpful.".

Definition CLI_BANNER : pystr :=
    py "LLaMA3.2 RAG Chatbot " ++ [8212] ++ py " type 'exit' to quit" ++ [10].

(** What the program does at the terminal, in order: [print(text)],
    [input(prompt)] writing its prompt, and [print("AI:", reply)], where
    [reply] is the tuple that [chatbot] returns. *)
Inductive TerminalEvent : Type :=
| Printed (text : pystr)
| Asked (prompt : pystr)
| PrintedReply (label reply : pystr) (distances : list Q) (context : pystr).

(** How a run of the command line ends: after [break], with the [EOFError]
    of [input] when the input has no more lines, or with an exception of
    [chatbot]. *)
Inductive CliEnd : Type :=
| SaidGoodbye
| EndOfInput
| Raised (e : PyError).

(** [user_input.strip().lower() in ["exit", "quit"]]. *)
Definition is_exit_command (user_input : pystr) : bool :=
  bool_decide (lower (strip user_input) ∈ [py "exit"; py "quit"]).

Section Cli.

Variable encode : pystr -> vec.
Variable chat : list chat_message -> pystr.

(** What [load_expanded_chunks] returned. *)
Variable chunks : list pystr.

(** The [while True] loop, over the lines that [input] will deliver: the
    events at the terminal, the list [messages] as the loop leaves it, and
    how the loop ends. *)
Fixpoint cli_loop (messages : list chat_message) (inputs : list pystr)
  : list TerminalEvent * list chat_message * CliEnd :=
  match inputs with
  | [] => ([Asked (py "You: ")], messages, EndOfInput)
  | user_input :: inputs' =>
      if is_exit_command user_input then
        ([Asked (py "You: "); Printed (py "Goodbye!")], messages, SaidGoodbye)
      else
        match chatbot encode chat user_input messages (index encode chunks) chunks with
        | inl e => ([Asked (py "You: ")], messages, Raised e)
        | inr (reply, distances, context, messages') =>
            let '(events, final, how) := cli_loop messages' inputs' in
            (Asked (py "You: ") :: PrintedReply (py "AI:") reply distances context :: events,
             final, how)
        end
  end.

Definition run_cli (inputs : list pystr)
  : list TerminalEvent * list chat_message * CliEnd :=
  let messages := [Message (py "system") CLI_SYSTEM_PROMPT] in
  let '(events, final, how) := cli_loop messages inputs in
  (Printed CLI_BANNER :: events, final, how).

End Cli.

(** ** Further notions used in the statements *)

(** The sentence that the system prompt tells the model to add to an answer
    that is out of scope. *)
Definition OUT_OF_SCOPE_SENTENCE : pystr :=
  py "I'm not sure about that because it's outside CTL's tutoring info. "
  ++ py "I can get a person to follow up if you want.".

(** The text of the log file, empty while the file does not exist. *)
Definition log_text (file : option pystr) : pystr :=
  match file with
  | Some text => text
  | None => []
  end.

(** A text with every line feed written as carriage return and line feed. *)
Definition crlf (text : pystr) : pystr := replace_char 10 [13; 10] text.

(** The keys that [review_escalations] reads from a record. *)
Definition REVIEW_KEYS : list pystr :=
  [py "timestamp"; py "user_id"; py "student_email"; py "question"; py "reply";
   py "context"; py "distances"].

(** The row of a record that has none of those keys. *)
Definition DEFAULT_ROW : Row :=
  {| row_ts := py "n/a";
     row_user_id := py "n/a";
     row_email := py "n/a";
     row_avg_dist := py "n/a";
     row_question := [];
     row_reply := [];
     row_context_preview := ELLIPSIS |}.

(** The requests of one user among a sequence of requests. *)
Definition requests_of (uid : pystr) (requests : list ChatRequest) : list ChatRequest :=
  filter (fun r => user_id r = uid) requests.

(** What the client of [get_response] sees: the response and the tasks
    handed to the framework, or the exception. *)
Definition response_of (r : PyError + (pystr * list EscalationTask * AppState))
  : PyError + (pystr * list EscalationTask) :=
  match r with
  | inl e => inl e
  | inr (response, tasks, _) => inr (response, tasks)
  end.

(** The line that [save_escalation_to_file] appends for a record. *)
Definition record_line (float_repr : Q -> pystr) (w : pystr * EscalationTask) : pystr :=
  Json.dumps float_repr (record_of (fst w) (snd w)) ++ [10].

(** A knowledge base of five short chunks, all near a five-letter question. *)
Definition example_close_chunks : list pystr :=
  [py "Math"; py "Chem"; py "Phys"; py "Econ"; py "Arts"].

(** The two events of one answered line: the prompt of [input] and the
    printed answer. *)
Definition answer_events (a : pystr * list Q * pystr) : list TerminalEvent :=
  let '(reply, distances, context) := a in
  [Asked (py "You: "); PrintedReply (py "AI:") reply distances context].

(** A question about the weather, put by the user of [example_ready_state],
    with what retrieval and the model return for it. *)
Definition example_weather_request : ChatRequest :=
  example_request "u1" "What is the weather?".

Definition example_weather_context : pystr :=
  py "Physics: Wed 4pm" ++ [10] ++ py "CS tutoring: Thu" ++ [10]
  ++ py "Chemistry: Tue" ++ [10] ++ py "Writing help" ++ [10]
  ++ py "Math tutoring: Mon 7-9pm, SMC".

Definition example_weather_reply : pystr :=
  py "It may rain. I'm not sure about that because it's outside CTL's tutoring info.".

Definition example_weather_task : EscalationTask :=
  {| task_user_id := py "u1";
     task_question := py "What is the weather?";
     task_reply := example_weather_reply;
     task_context := example_weather_context;
     task_distances := [16; 16; 36; 64; 81]%Q;
     task_convo :=
       history_of [(user_prompt example_weather_context (py "What is the weather?"),
                    example_weather_reply)];
     task_student_email := Some (py "Bob@knox.edu") |}.

(** An escalation whose user id holds markup. *)
Definition example_tagged_task : EscalationTask :=
  {| task_user_id := py "<i>u1</i>";
     task_question := task_question example_task;
     task_reply := task_reply example_task;
     task_context := task_context example_task;
     task_distances := task_distances example_task;
     task_convo := task_convo example_task;
     task_student_email := task_student_email example_task |}.

(* ================================================================== *)
(** * Properties *)
(* ================================================================== *)

(** ** Strings *)

Lemma startswith_spec s prefix :
  startswith s prefix = true <-> exists rest, s = prefix ++ rest.
Proof.
  revert s; induction prefix as [|p prefix IH]; intros s; simpl.
  - split; [intros _; by exists s | done].
  - destruct s as [|c s]; [split; [done | intros [? ?]; done]|].
    rewrite andb_true_iff, N.eqb_eq, IH. split.
    + intros [-> [rest ->]]; eauto.
    + intros [rest [= <- ->]]; eauto.
Qed.

Lemma contains_spec needle hay :
  contains needle hay = true <->
  exists before after, hay = before ++ needle ++ after.
Proof.
  induction hay as [|c hay IH]; simpl; rewrite orb_true_iff, startswith_spec.
  - split.
    + intros [[rest H]|?]; [|done]. exists [], rest. done.
    + intros (before & after & H). left.
      destruct before; [eauto | done].
  - rewrite IH. split.
    + intros [[rest H]|(before & after & ->)].
      * exists [], rest. done.
      * exists (c :: before), after. done.
    + intros (before & after & H). destruct before as [|b before]; simpl in H.
      * left; eauto.
      * right. injection H as _ ->. eauto.
Qed.

Lemma lower_app s t : lower (s ++ t) = lower s ++ lower t.
Proof. apply map_app. Qed.

Lemma lower_app_inv s u v :
  lower s = u ++ v -> exists s1 s2, s = s1 ++ s2 /\ lower s1 = u /\ lower s2 = v.
Proof. apply map_eq_app. Qed.

Lemma contains_lower_spec phrase text :
  contains (lower phrase) (lower text) = true <-> occurs_ignoring_case phrase text.
Proof.
  rewrite contains_spec. unfold occurs_ignoring_case. split.
  - intros (u & v & H).
    apply lower_app_inv in H as (before & rest & -> & <- & H).
    apply lower_app_inv in H as (s & after & -> & H & <-).
    exists before, s, after. done.
  - intros (before & s & after & -> & H).
    exists (lower before), (lower after). by rewrite !lower_app, H.
Qed.

(** ** Escalation predicate *)

Lemma fold_left_Qplus xs a :
  (fold_left Qplus xs a == a + fold_right Qplus (0#1) xs)%Q.
Proof.
  revert a; induction xs as [|x xs IH]; intros a; simpl; [ring|].
  rewrite IH. ring.
Qed.

Lemma py_sum_fold_right xs : (py_sum xs == fold_right Qplus (0#1) xs)%Q.
Proof. unfold py_sum. rewrite fold_left_Qplus. ring. Qed.

Lemma Qgtb_lt a b : Qgtb a b = true <-> (b < a)%Q.
Proof.
  unfold Qgtb. rewrite negb_true_iff, <- not_true_iff_false, Qle_bool_iff.
  split; [apply Qnot_le_lt | apply Qlt_not_le].
Qed.

Lemma low_retrieval_confidence_spec distances threshold :
  low_retrieval_confidence distances threshold = true <->
  distances = [] \/ (threshold < mean distances)%Q.
Proof.
  destruct distances as [|d ds]; [split; auto|].
  unfold low_retrieval_confidence, mean, py_len.
  rewrite Qgtb_lt, py_sum_fold_right. split; [auto | intros [?|?]; done].
Qed.


Example should_escalate_confident :
  should_escalate (py "Math tutoring is on Monday.") [4 # 10; 5 # 10]%Q = false.
Proof. reflexivity. Qed.

Example should_escalate_weak_match :
  should_escalate (py "Math tutoring is on Monday.") [12 # 10; 11 # 10]%Q = true.
Proof. reflexivity. Qed.

Example should_escalate_marker :
  should_escalate (py "Sorry, that is Outside CTL's Tutoring Info.") [4 # 10]%Q = true.
Proof. reflexivity. Qed.

(** ** Patterns: the matcher decides the language *)

Module ReFacts.
Import Re.

Lemma Matches_cat r1 r2 s :
  Matches (Cat r1 r2) s <->
  exists s1 s2, s = s1 ++ s2 /\ Matches r1 s1 /\ Matches r2 s2.
Proof.
  split.
  - inversion 1; subst; eauto.
  - intros (s1 & s2 & -> & H1 & H2). by constructor.
Qed.

Lemma nullable_spec r : nullable r = true <-> Matches r [].
Proof.
  induction r as [| |p|r1 IH1 r2 IH2|r1 IH1 r2 IH2|r IH]; simpl.
  - split; [done | inversion 1].
  - split; [constructor | done].
  - split; [done | inversion 1].
  - rewrite andb_true_iff, IH1, IH2. split.
    + intros [H1 H2]. apply (MCat _ _ [] [] H1 H2).
    + intros (s1 & s2 & E & H1 & H2)%Matches_cat.
      symmetry in E. apply app_eq_nil in E as [-> ->]. done.
  - rewrite orb_true_iff, IH1, IH2. split.
    + intros [?|?]; [by apply MAltL | by apply MAltR].
    + inversion 1; subst; auto.
  - split; [constructor | done].
Qed.

Lemma Matches_cat_cons r1 r2 c s :
  Matches (Cat r1 r2) (c :: s) ->
  (exists s1 s2, s = s1 ++ s2 /\ Matches r1 (c :: s1) /\ Matches r2 s2)
  \/ (Matches r1 [] /\ Matches r2 (c :: s)).
Proof.
  intros (s1 & s2 & E & H1 & H2)%Matches_cat.
  destruct s1 as [|c' s1]; simpl in E.
  - right. by subst.
  - left. injection E as -> ->. eauto.
Qed.

Lemma Matches_star_cons r c s :
  Matches (Star r) (c :: s) ->
  exists s1 s2, s = s1 ++ s2 /\ Matches r (c :: s1) /\ Matches (Star r) s2.
Proof.
  intros H. remember (Star r) as r' eqn:Er. remember (c :: s) as t eqn:Et.
  induction H as [| | | | | |r0 s1 s2 H1 _ H2 IH2]; try discriminate.
  injection Er as ->. destruct s1 as [|c' s1]; simpl in Et.
  - by apply IH2.
  - injection Et as -> <-. eauto.
Qed.

Lemma Matches_alt r1 r2 s :
  Matches (Alt r1 r2) s <-> Matches r1 s \/ Matches r2 s.
Proof.
  split.
  - inversion 1; subst; auto.
  - intros [?|?]; [by apply MAltL | by apply MAltR].
Qed.

Lemma Matches_class p s :
  Matches (Class p) s <-> exists c, s = [c] /\ p c = true.
Proof.
  split.
  - inversion 1; subst; eauto.
  - intros (c & -> & ?). by constructor.
Qed.

Lemma Matches_eps s : Matches Eps s <-> s = [].
Proof. split; [by inversion 1 | intros ->; constructor]. Qed.

Lemma Matches_void s : ~ Matches Void s.
Proof. inversion 1. Qed.

Lemma deriv_spec c r s : Matches (deriv c r) s <-> Matches r (c :: s).
Proof.
  revert s.
  induction r as [| |p|r1 IH1 r2 IH2|r1 IH1 r2 IH2|r IH]; intros s; simpl.
  - split; intros []%Matches_void.
  - split; [intros []%Matches_void | by intros ?%Matches_eps].
  - rewrite Matches_class. destruct (p c) eqn:Hp.
    + rewrite Matches_eps. split; [intros ->; eauto | by intros (? & [= _ ->] & _)].
    + split; [intros []%Matches_void | intros (? & [= <- _] & ?); congruence].
  - assert (Hcat : Matches (Cat (deriv c r1) r2) s <->
                   exists s1 s2, s = s1 ++ s2 /\ Matches r1 (c :: s1)
                                 /\ Matches r2 s2).
    { rewrite Matches_cat. by setoid_rewrite IH1. }
    destruct (nullable r1) eqn:Hn.
    + rewrite Matches_alt, Hcat, IH2. split.
      * intros [(s1 & s2 & -> & H1 & H2)|H2].
        -- apply (MCat _ _ (c :: s1) s2 H1 H2).
        -- apply nullable_spec in Hn. apply (MCat _ _ [] (c :: s) Hn H2).
      * intros [H|[_ H]]%Matches_cat_cons; auto.
    + rewrite Hcat. split.
      * intros (s1 & s2 & -> & H1 & H2). apply (MCat _ _ (c :: s1) s2 H1 H2).
      * intros [H|[H _]]%Matches_cat_cons; [done|].
        apply nullable_spec in H. congruence.
  - rewrite !Matches_alt, IH1, IH2. done.
  - rewrite Matches_cat. setoid_rewrite IH. split.
    + intros (s1 & s2 & -> & H1 & H2). apply (MStarApp _ (c :: s1) s2 H1 H2).
    + apply Matches_star_cons.
Qed.

Lemma fullmatch_spec r s : fullmatch r s = true <-> Matches r s.
Proof.
  revert r; induction s as [|c s IH]; intros r; simpl.
  - apply nullable_spec.
  - rewrite IH. apply deriv_spec.
Qed.

Lemma Matches_chr c s : Matches (Chr c) s <-> s = [c].
Proof.
  unfold Chr. rewrite Matches_class. split.
  - by intros (c' & -> & ->%N.eqb_eq).
  - intros ->. exists c. by rewrite N.eqb_refl.
Qed.

Lemma Matches_lit t s : Matches (Lit t) s <-> s = t.
Proof.
  revert s; induction t as [|c t IH]; intros s; simpl.
  - apply Matches_eps.
  - rewrite Matches_cat. setoid_rewrite Matches_chr. setoid_rewrite IH. split.
    + by intros (? & ? & -> & -> & ->).
    + intros ->. by exists [c], t.
Qed.

Lemma Matches_star_class p s :
  Matches (Star (Class p)) s <-> Forall (fun c => p c = true) s.
Proof.
  split.
  - intros H. remember (Star (Class p)) as r eqn:Er.
    induction H as [| | | | | |r0 s1 s2 H1 _ H2 IH2]; try discriminate.
    + constructor.
    + injection Er as ->. apply Matches_class in H1 as (c & -> & Hc).
      constructor; [done | by apply IH2].
  - induction 1 as [|c s Hc _ IH]; [constructor|].
    apply (MStarApp _ [c] s); [by constructor | done].
Qed.

Lemma Matches_plus_class p s :
  Matches (Plus (Class p)) s <-> s <> [] /\ Forall (fun c => p c = true) s.
Proof.
  unfold Plus. rewrite Matches_cat. setoid_rewrite Matches_class.
  setoid_rewrite Matches_star_class. split.
  - intros (? & s2 & -> & (c & -> & Hc) & H). split; [done | by constructor].
  - intros [Hne H]. destruct H as [|c s Hc H]; [done|].
    exists [c], s. eauto.
Qed.

(** [$] adds at most one final newline to the language. *)
Lemma match_anchored_spec r s :
  match_anchored r s = true <->
  Matches r s \/ exists t, s = t ++ [10] /\ Matches r t.
Proof.
  unfold match_anchored.
  rewrite fullmatch_spec, Matches_cat.
  setoid_rewrite Matches_alt. setoid_rewrite Matches_eps.
  setoid_rewrite Matches_chr. split.
  - intros (s1 & s2 & -> & H1 & [->| ->]); [left | right; eauto].
    by rewrite app_nil_r.
  - intros [H|(t & -> & H)].
    + exists s, []. rewrite app_nil_r. auto.
    + exists t, [10]. auto.
Qed.

End ReFacts.

(** ** Letter case and white space *)

Ltac cmp_cases :=
  repeat (match goal with
          | |- context [N.leb ?a ?b] => destruct (N.leb_spec a b)
          | |- context [N.ltb ?a ?b] => destruct (N.ltb_spec a b)
          | |- context [N.eqb ?a ?b] => destruct (N.eqb_spec a b)
          end; simpl; try lia); try done.

Lemma lower_char_cases c :
  (65 <= c <= 90 /\ lower_char c = c + 32)
  \/ (c = 8490 /\ lower_char c = 107)
  \/ ((c < 65 \/ 90 < c) /\ c <> 8490 /\ lower_char c = c).
Proof.
  unfold lower_char.
  destruct (N.leb_spec 65 c), (N.leb_spec c 90), (N.eqb_spec c 8490);
    simpl; lia.
Qed.

Lemma lower_char_idem c : lower_char (lower_char c) = lower_char c.
Proof.
  destruct (lower_char_cases c) as [[Hc ->]|[[-> ->]|(Hc & Hk & ->)]].
  - unfold lower_char. cmp_cases.
  - reflexivity.
  - unfold lower_char. cmp_cases.
Qed.

Lemma lower_idem s : lower (lower s) = lower s.
Proof.
  unfold lower. rewrite map_map. apply map_ext, lower_char_idem.
Qed.

Lemma isspace_lower_char c : isspace (lower_char c) = isspace c.
Proof.
  destruct (lower_char_cases c) as [[Hc ->]|[[-> ->]|(Hc & Hk & ->)]];
    [|reflexivity..].
  unfold isspace. cmp_cases.
Qed.

Lemma local_class_lower_char c :
  local_class c = true -> local_class (lower_char c) = true.
Proof.
  destruct (lower_char_cases c) as [[Hc ->]|[[-> ->]|(Hc & Hk & ->)]];
    [|done..].
  intros _. unfold local_class, in_range. cmp_cases.
Qed.

Lemma lstrip_head s c t : lstrip s = c :: t -> isspace c = false.
Proof.
  induction s as [|a s IH]; simpl; [done|].
  destruct (isspace a) eqn:Ha; [done|]. by intros [= <- _].
Qed.

Lemma rstrip_last s t c : rstrip s = t ++ [c] -> isspace c = false.
Proof.
  unfold rstrip. intros H. apply (f_equal (@rev N)) in H.
  rewrite rev_involutive, rev_app_distr in H. simpl in H.
  by apply lstrip_head in H.
Qed.

Lemma strip_last s t c : strip s = t ++ [c] -> isspace c = false.
Proof. apply rstrip_last. Qed.

Lemma strip_nil : strip [] = [].
Proof. reflexivity. Qed.

(** ** The e-mail predicate *)

Lemma Matches_KNOX_EMAIL_RE s :
  Re.Matches KNOX_EMAIL_RE s <-> knox_address s.
Proof.
  unfold KNOX_EMAIL_RE, knox_address. split.
  - intros (local & s1 & -> & [Hne Hall]%ReFacts.Matches_plus_class & H)
      %ReFacts.Matches_cat.
    apply ReFacts.Matches_cat in H as (s2 & s3 & -> & ->%ReFacts.Matches_lit & H).
    apply ReFacts.Matches_cat in H
      as (s4 & s5 & -> & ->%ReFacts.Matches_chr & ->%ReFacts.Matches_lit).
    exists local. done.
  - intros (local & Hne & Hall & ->).
    apply Re.MCat; [by apply ReFacts.Matches_plus_class|].
    apply (Re.MCat _ _ (py "@knox") (py ".edu")); [by apply ReFacts.Matches_lit|].
    apply (Re.MCat _ _ [46] (py "edu"));
      [by apply ReFacts.Matches_chr | by apply ReFacts.Matches_lit].
Qed.

Lemma knox_address_lower a : knox_address a -> knox_address (lower a).
Proof.
  intros (local & Hne & Hall & ->). exists (lower local). repeat split.
  - by destruct local.
  - unfold lower. apply Forall_map.
    eapply Forall_impl; [exact Hall|]. apply local_class_lower_char.
  - by rewrite lower_app.
Qed.

(** C4. The e-mail predicate holds exactly for the strings whose trimmed
    content is, up to letter case, one address [local@knox.edu] with a
    non-empty local part of letters, digits and [. _ % + -]; it is false of
    every other string, the empty one and those with text around the
    address included. *)
Theorem is_knox_email_iff (text : pystr) :
  is_knox_email text = true <->
  exists a, knox_address a /\ same_ignoring_case (strip text) a.
Proof.
  unfold same_ignoring_case. split.
  - intros H. destruct text as [|c text]; [done|].
    unfold is_knox_email in H. remember (c :: text) as s eqn:Es. clear Es.
    apply ReFacts.match_anchored_spec in H as [H|(t & E & H)].
    + apply Matches_KNOX_EMAIL_RE in H.
      exists (lower (strip s)). by rewrite lower_idem.
    + exists (lower (strip s)). rewrite lower_idem. split; [|done].
      apply lower_app_inv in E as (u & v & E & _ & Hv).
      destruct v as [|d [|? ?]]; try done.
      injection Hv as Hd. apply strip_last in E.
      rewrite <- isspace_lower_char, Hd in E. done.
  - intros (a & Ha & E). apply knox_address_lower in Ha.
    destruct text as [|c text].
    + rewrite strip_nil in E. destruct Ha as ([|? ?] & ? & _ & Ha); [done|].
      rewrite <- E in Ha. done.
    + unfold is_knox_email. rewrite E.
      apply ReFacts.match_anchored_spec. left. by apply Matches_KNOX_EMAIL_RE.
Qed.

Example is_knox_email_examples :
  is_knox_email (py "  Bob.Smith+x@KNOX.edu ") = true
  /\ is_knox_email (py "bob@knox.edu please") = false
  /\ is_knox_email (py "bob@knox.edu.evil.org") = false
  /\ is_knox_email (py "@knox.edu") = false
  /\ is_knox_email [] = false.
Proof. repeat split; vm_compute; reflexivity. Qed.

(** ** Retrieval *)

Section FaissFacts.
Import Faiss.
Local Open Scope Q_scope.

Lemma StronglySorted_lookup {A} (R : A -> A -> Prop) (l : list A) i j a b :
  StronglySorted R l -> (i < j)%nat -> l !! i = Some a -> l !! j = Some b -> R a b.
Proof.
  intros Hl. revert i j. induction Hl as [|x l Hl IH Hx]; intros i j Hij Hi Hj.
  - done.
  - destruct j as [|j]; [lia|]. simpl in Hj. destruct i as [|i]; simpl in Hi.
    + injection Hi as ->. rewrite Forall_forall in Hx. apply Hx.
      apply list_elem_of_lookup. eauto.
    + apply (IH i j); [lia | done..].
Qed.

Lemma lookup_map {A B} (f : A -> B) (l : list A) i :
  map f l !! i = f <$> l !! i.
Proof.
  revert i; induction l as [|x l IH]; intros [|i]; simpl; auto.
Qed.

Lemma StronglySorted_firstn {A} (R : A -> A -> Prop) (l : list A) n :
  StronglySorted R l -> StronglySorted R (firstn n l).
Proof.
  intros Hl. rewrite <- (firstn_skipn n l) in Hl.
  by apply StronglySorted_app_1_l in Hl.
Qed.

Lemma length_scan q stored first : length (scan q stored first) = length stored.
Proof.
  revert first; induction stored as [|v stored IH]; intros first; simpl; [done|].
  by rewrite IH.
Qed.

Lemma Forall_insert (P : Q * Z -> Prop) h hs :
  Forall P (insert h hs) <-> P h /\ Forall P hs.
Proof.
  induction hs as [|h' hs IH]; simpl.
  - rewrite Forall_singleton, Forall_nil. tauto.
  - destruct (Qle_bool (fst h) (fst h')).
    + by rewrite Forall_cons.
    + rewrite !Forall_cons, IH. tauto.
Qed.

Lemma Forall_ranked (P : Q * Z -> Prop) hs : Forall P (ranked hs) <-> Forall P hs.
Proof.
  induction hs as [|h hs IH]; simpl; [done|].
  by rewrite Forall_insert, Forall_cons, IH.
Qed.

Lemma length_insert_hit h hs : length (insert h hs) = S (length hs).
Proof.
  induction hs as [|h' hs IH]; simpl; [done|].
  destruct (Qle_bool (fst h) (fst h')); simpl; by rewrite ?IH.
Qed.

Lemma length_ranked hs : length (ranked hs) = length hs.
Proof.
  induction hs as [|h hs IH]; simpl; [done|].
  by rewrite length_insert_hit, IH.
Qed.

Lemma length_pad k hs : length (pad k hs) = k.
Proof.
  unfold pad. rewrite length_app, length_firstn, repeat_length. lia.
Qed.

Lemma length_search stored q k D I :
  search stored q k = (D, I) -> length D = k /\ length I = k.
Proof.
  unfold search. intros [= <- <-]. by rewrite !length_map, length_pad.
Qed.

Lemma pad_enough k hs : (k <= length hs)%nat -> pad k hs = firstn k hs.
Proof.
  intros Hk. unfold pad. replace (k - length hs)%nat with 0%nat by lia.
  apply app_nil_r.
Qed.

(** Labels are the positions in the store. *)
Lemma scan_labels q stored first :
  Forall (fun h => (first <= snd h < first + Z.of_nat (length stored))%Z)
    (scan q stored first).
Proof.
  revert first; induction stored as [|v stored IH]; intros first; simpl.
  - constructor.
  - constructor; [simpl; lia|].
    eapply Forall_impl; [apply IH|]. simpl. intros h ?. lia.
Qed.

Lemma scan_distances q stored first :
  Forall (fun h => exists v, In v stored /\ fst h = l2sqr q v) (scan q stored first).
Proof.
  revert first; induction stored as [|v stored IH]; intros first; simpl.
  - constructor.
  - constructor; [exists v; auto|].
    eapply Forall_impl; [apply IH|]. intros h (w & ? & ?). eauto.
Qed.

Lemma scan_lookup q stored first :
  Forall (fun h => (first <= snd h)%Z
                   /\ exists v, stored !! Z.to_nat (snd h - first) = Some v
                                /\ fst h = l2sqr q v)
    (scan q stored first).
Proof.
  revert first; induction stored as [|v stored IH]; intros first; simpl.
  - constructor.
  - constructor.
    + simpl. split; [lia|]. exists v. by rewrite Z.sub_diag.
    + eapply Forall_impl; [apply IH|]. simpl. intros h (Hle & w & Hw & Hd).
      split; [lia|]. exists w. split; [|done].
      replace (Z.to_nat (snd h - first)) with (S (Z.to_nat (snd h - (first + 1))))
        by lia.
      done.
Qed.

Lemma scan_increasing q stored first :
  StronglySorted (fun h1 h2 => (snd h1 < snd h2)%Z) (scan q stored first).
Proof.
  revert first; induction stored as [|v stored IH]; intros first; simpl.
  - constructor.
  - constructor; [apply IH|].
    eapply Forall_impl; [apply scan_labels|]. simpl. intros h ?. lia.
Qed.

Lemma insert_ranked h hs :
  StronglySorted ranked_before hs ->
  Forall (fun h' => (snd h < snd h')%Z) hs ->
  StronglySorted ranked_before (insert h hs).
Proof.
  induction 1 as [|h' hs Hs IH Hh']; intros Hlab; simpl.
  - repeat constructor.
  - apply Forall_cons in Hlab as [Hl Hlab].
    destruct (Qle_bool (fst h) (fst h')) eqn:Hle.
    + apply Qle_bool_iff in Hle.
      assert (Hhh' : ranked_before h h').
      { destruct (Qle_lt_or_eq _ _ Hle); [by left | by right]. }
      constructor; [by constructor|]. constructor; [done|].
      rewrite Forall_forall in Hh', Hlab. apply Forall_forall. intros x Hx.
      specialize (Hh' x Hx). specialize (Hlab x Hx).
      destruct Hhh' as [?|[E _]], Hh' as [?|[E' _]].
      * left. by eapply Qlt_trans.
      * left. by rewrite <- E'.
      * left. by rewrite E.
      * right. split; [by rewrite E | done].
    + assert (fst h' < fst h).
      { apply Qnot_le_lt. intros ?%Qle_bool_iff. congruence. }
      constructor; [by apply IH|].
      apply Forall_insert. split; [by left | done].
Qed.

Lemma ranked_sorted hs :
  StronglySorted (fun h1 h2 => (snd h1 < snd h2)%Z) hs ->
  StronglySorted ranked_before (ranked hs).
Proof.
  induction 1 as [|h hs Hs IH Hh]; simpl; [constructor|].
  apply insert_ranked; [done|]. by apply Forall_ranked.
Qed.

Lemma ranked_before_Qle h1 h2 : ranked_before h1 h2 -> fst h1 <= fst h2.
Proof.
  intros [?|[E _]]; [by apply Qlt_le_weak | rewrite E; apply Qle_refl].
Qed.

Lemma StronglySorted_map_fst hs :
  StronglySorted ranked_before hs -> StronglySorted Qle (map fst hs).
Proof.
  induction 1 as [|h hs Hs IH Hh]; simpl; constructor; [done|].
  apply Forall_map. eapply Forall_impl; [exact Hh|].
  intros h'. apply ranked_before_Qle.
Qed.

End FaissFacts.

Section RetrievalFacts.
Import Faiss.
Local Open Scope Q_scope.

Variable encode : pystr -> vec.

Lemma bind_inr {E A B} (x : E + A) (f : A -> E + B) y :
  bind x f = inr y <-> exists a, x = inr a /\ f a = inr y.
Proof.
  destruct x as [e|a]; simpl; split.
  - done.
  - by intros (? & ? & ?).
  - eauto.
  - by intros (? & [= <-] & ?).
Qed.

Lemma mapM_ok {E A B} (f : A -> E + B) (P : B -> Prop) xs :
  Forall (fun x => exists y, f x = inr y /\ P y) xs ->
  exists ys, mapM f xs = inr ys /\ length ys = length xs /\ Forall P ys.
Proof.
  induction 1 as [|x xs (y & Hy & HP) _ (ys & Hys & Hlen & HPs)]; simpl.
  - exists []. auto.
  - exists (y :: ys). rewrite Hy, Hys. simpl. auto.
Qed.

Lemma py_getitem_in_range {A} (xs : list A) (i : Z) :
  (0 <= i < Z.of_nat (length xs))%Z ->
  exists x, py_getitem xs i = inr x /\ In x xs.
Proof.
  intros Hi. unfold py_getitem.
  destruct (Z.ltb_spec i 0); [lia|].
  destruct (Z.leb_spec 0 i); [|lia].
  destruct (Z.ltb_spec i (Z.of_nat (length xs))); [|lia]. simpl.
  destruct (nth_error xs (Z.to_nat i)) as [x|] eqn:Hx.
  - exists x. split; [done|]. by eapply nth_error_In.
  - apply nth_error_None in Hx. lia.
Qed.

Lemma search_labels_in_range stored q k :
  (k <= length stored)%nat ->
  Forall (fun l => (0 <= l < Z.of_nat (length stored))%Z) (snd (search stored q k)).
Proof.
  intros Hk. unfold search. simpl.
  rewrite pad_enough by (by rewrite length_ranked, length_scan).
  apply Forall_map, Forall_take, Forall_ranked.
  eapply Forall_impl; [apply scan_labels|]. simpl. intros h ?. lia.
Qed.


(** The rows of a search always have [k] columns. *)
Lemma get_context_distances_length question index chunks top_k ctx D :
  get_context encode question index chunks top_k = inr (ctx, D) ->
  length D = top_k.
Proof.
  unfold get_context.
  destruct (search index (encode question) top_k) as [D0 I0] eqn:Hs.
  intros (texts & _ & [= _ <-])%bind_inr.
  by apply length_search in Hs as [? _].
Qed.

(** Label [-1] of an empty chunk list: [IndexError]. *)
Lemma get_context_empty_index question top_k :
  get_context encode question [] [] (S top_k) = inl IndexError.
Proof. reflexivity. Qed.


End RetrievalFacts.




(** ** The chat endpoint *)

Section EndpointFacts.

Variable encode : pystr -> vec.
Variable chat : list chat_message -> pystr.
Variable chunks : list pystr.
Variable float_repr : Q -> pystr.

Local Abbreviation respond := (get_response encode chat chunks).
Local Abbreviation step := (next_state encode chat chunks).
Local Abbreviation run_from := (run encode chat chunks).
Local Abbreviation serve_one := (serve encode chat chunks float_repr).

Lemma chatbot_inr user_message messages idx r :
  chatbot encode chat user_message messages idx chunks = inr r <->
  exists context distances,
    get_context encode user_message idx chunks TOP_K = inr (context, distances)
    /\ r = (chat (messages ++ [Message (py "user") (user_prompt context user_message)]),
            distances, context,
            (messages ++ [Message (py "user") (user_prompt context user_message)])
            ++ [Message (py "assistant")
                  (chat (messages
                         ++ [Message (py "user") (user_prompt context user_message)]))]).
Proof.
  unfold chatbot. rewrite bind_inr. split.
  - intros ([context distances] & H & [= <-]). eauto.
  - intros (context & distances & H & ->). exists (context, distances). auto.
Qed.

Lemma get_response_new st request :
  conversations st !! user_id request = None ->
  respond st request
  = inr (INTRO, [],
         {| conversations :=
              <[user_id request := [Message (py "system") SYSTEM_PROMPT]]>
                (conversations st);
            student_emails := <[user_id request := None]> (student_emails st) |}).
Proof. intros H. unfold get_response. by rewrite H. Qed.

Lemma get_response_no_match st request :
  onboarding st (user_id request) = Some AwaitingEmail ->
  is_knox_email (message request) = false ->
  respond st request = inr (NEED_EMAIL_MSG, [], st).
Proof.
  unfold onboarding, get_response. intros H Hm.
  destruct (conversations st !! user_id request); [|done].
  destruct (student_emails st !! user_id request) as [[?|]|]; try done.
  by rewrite Hm.
Qed.

Lemma get_response_match st request :
  onboarding st (user_id request) = Some AwaitingEmail ->
  is_knox_email (message request) = true ->
  respond st request
  = inr (confirm_msg (strip (message request)), [],
         {| conversations := conversations st;
            student_emails :=
              <[user_id request := Some (strip (message request))]>
                (student_emails st) |}).
Proof.
  unfold onboarding, get_response. intros H Hm.
  destruct (conversations st !! user_id request); [|done].
  destruct (student_emails st !! user_id request) as [[?|]|]; try done.
  by rewrite Hm.
Qed.

Lemma get_response_ready st request messages email reply distances context messages' :
  conversations st !! user_id request = Some messages ->
  student_emails st !! user_id request = Some (Some email) ->
  chatbot encode chat (message request) messages (index encode chunks) chunks
  = inr (reply, distances, context, messages') ->
  respond st request
  = let st' := {| conversations := <[user_id request := messages']> (conversations st);
                  student_emails := student_emails st |} in
    if should_escalate reply distances then
      inr (if bot_flagged_out_of_scope reply then FLAGGED_REPLY else reply,
           [{| task_user_id := user_id request;
               task_question := message request;
               task_reply := reply;
               task_context := context;
               task_distances := distances;
               task_convo := messages';
               task_student_email := Some email |}],
           st')
    else inr (reply, [], st').
Proof.
  intros Hc He Hb. unfold get_response. rewrite Hc, He, Hb. reflexivity.
Qed.


(** *** Onboarding *)

Lemma next_state_other st request uid :
  user_id request <> uid ->
  conversations (step st request) !! uid = conversations st !! uid
  /\ student_emails (step st request) !! uid = student_emails st !! uid.
Proof.
  intros Hne. unfold next_state, get_response.
  destruct (conversations st !! user_id request) as [messages|]; simpl.
  - destruct (student_emails st !! user_id request) as [[email|]|]; simpl; [| |done].
    + destruct (chatbot _ _ _ _ _ _) as [e|[[[reply distances] context] messages']];
        simpl; [done|].
      destruct (_ || _); simpl; by rewrite lookup_insert_ne.
    + destruct (is_knox_email _); simpl; [|done]. by rewrite lookup_insert_ne.
  - by rewrite !lookup_insert_ne.
Qed.

Lemma onboarding_other st request uid :
  user_id request <> uid ->
  onboarding (step st request) uid = onboarding st uid.
Proof.
  intros [Hc He]%(next_state_other st). unfold onboarding. by rewrite Hc, He.
Qed.

Lemma ready_stays st request uid email :
  onboarding st uid = Some (Ready email) ->
  onboarding (step st request) uid = Some (Ready email).
Proof.
  intros H. destruct (decide (user_id request = uid)) as [<-|Hne];
    [|by rewrite onboarding_other].
  revert H. unfold onboarding, next_state, get_response.
  destruct (conversations st !! user_id request) as [messages|] eqn:Hc; [|done].
  destruct (student_emails st !! user_id request) as [[email'|]|] eqn:He; try done.
  intros [= ->]. simpl.
  destruct (chatbot _ _ _ _ _ _) as [e|[[[reply distances] context] messages']];
    simpl; [by rewrite Hc, He|].
  destruct (_ || _); simpl; by rewrite lookup_insert_eq, He.
Qed.

Lemma ready_stays_run st requests uid email :
  onboarding st uid = Some (Ready email) ->
  onboarding (run_from st requests) uid = Some (Ready email).
Proof.
  revert st; induction requests as [|request requests IH]; intros st H; simpl.
  - done.
  - by apply IH, ready_stays.
Qed.

Lemma awaiting_stays st request uid :
  onboarding st uid = Some AwaitingEmail ->
  (user_id request = uid -> is_knox_email (message request) = false) ->
  onboarding (step st request) uid = Some AwaitingEmail.
Proof.
  intros H Hm. destruct (decide (user_id request = uid)) as [E|Hne];
    [|by rewrite onboarding_other].
  unfold next_state. subst uid. by rewrite get_response_no_match by auto.
Qed.

(** C6. A session that awaits the address stays so across any number of
    messages that are not an address (each is answered by the prompt and
    changes nothing); the first message that is an address makes it
    [Ready] with that address, and no later request resets it. *)
Theorem onboarding_transitions (st : AppState) (uid : pystr) :
  onboarding st uid = Some AwaitingEmail ->
  (forall requests,
      Forall (fun r => user_id r = uid -> is_knox_email (message r) = false)
        requests ->
      onboarding (run_from st requests) uid = Some AwaitingEmail)
  /\ (forall text,
        is_knox_email text = false ->
        respond st {| user_id := uid; message := text |}
        = inr (NEED_EMAIL_MSG, [], st))
  /\ (forall text,
        is_knox_email text = true ->
        exists st',
          respond st {| user_id := uid; message := text |}
          = inr (confirm_msg (strip text), [], st')
          /\ onboarding st' uid = Some (Ready (strip text))
          /\ forall requests,
              onboarding (run_from st' requests) uid = Some (Ready (strip text))).
Proof.
  intros H. repeat split.
  - intros requests Hall. revert st H.
    induction Hall as [|request requests Hm _ IH]; intros st H; simpl; [done|].
    by apply IH, awaiting_stays.
  - intros text Hm. by apply get_response_no_match.
  - intros text Hm. eexists. split; [by apply get_response_match|].
    assert (Hr : onboarding
              {| conversations := conversations st;
                 student_emails := <[uid := Some (strip text)]> (student_emails st) |}
              uid = Some (Ready (strip text))).
    { revert H. unfold onboarding. simpl.
      destruct (conversations st !! uid); [|done]. by rewrite lookup_insert_eq. }
    split; [exact Hr|]. intros requests. by apply ready_stays_run.
Qed.

(** *** Message history *)

Lemma search_labels_valid stored q k :
  Forall (fun l => (-1 <= l < Z.of_nat (length stored))%Z)
    (snd (Faiss.search stored q k)).
Proof.
  unfold Faiss.search, Faiss.pad. simpl. rewrite map_app. apply Forall_app. split.
  - apply Forall_map, Forall_take, Forall_ranked.
    eapply Forall_impl; [apply scan_labels|]. simpl. intros h ?. lia.
  - apply Forall_map, Forall_forall.
    intros h ->%list_elem_of_In%repeat_spec. simpl. lia.
Qed.

Lemma py_getitem_last {A} (xs : list A) (i : Z) :
  xs <> [] -> (-1 <= i < Z.of_nat (length xs))%Z ->
  exists x, py_getitem xs i = inr x.
Proof.
  intros Hne Hi. destruct (decide (i = -1)%Z) as [->|].
  - unfold py_getitem. simpl.
    assert (0 < length xs)%nat by (destruct xs; [done | simpl; lia]).
    destruct (Z.leb_spec 0 (-1 + Z.of_nat (length xs))); [|lia].
    destruct (Z.ltb_spec (-1 + Z.of_nat (length xs)) (Z.of_nat (length xs))); [|lia].
    simpl. destruct (nth_error xs _) as [x|] eqn:Hx; [eauto|].
    apply nth_error_None in Hx. lia.
  - destruct (py_getitem_in_range xs i) as (x & Hx & _); [lia | eauto].
Qed.

Lemma get_context_total question top_k :
  chunks <> [] ->
  exists context distances,
    get_context encode question (index encode chunks) chunks top_k
    = inr (context, distances).
Proof.
  intros Hne. unfold get_context, index.
  change (fst (build_index encode chunks)) with (map encode chunks).
  pose proof (search_labels_valid (map encode chunks) (encode question) top_k) as Hl.
  destruct (Faiss.search _ _ _) as [D0 I0]. simpl in Hl. rewrite length_map in Hl.
  destruct (mapM_ok (py_getitem chunks) (fun _ => True) I0) as (texts & -> & _).
  { eapply Forall_impl; [exact Hl|]. intros l Hlab.
    destruct (py_getitem_last chunks l Hne Hlab) as [x ->]. eauto. }
  simpl. eauto.
Qed.

Lemma step_conversation_new st request :
  conversations st !! user_id request = None ->
  conversations (step st request) !! user_id request = Some (history_of [])
  /\ is_ready st (user_id request) = false.
Proof.
  intros H. unfold next_state. rewrite get_response_new by done. simpl.
  rewrite lookup_insert_eq. unfold is_ready, onboarding. by rewrite H.
Qed.

Lemma step_conversation_onboarding st request history :
  conversations st !! user_id request = Some history ->
  is_ready st (user_id request) = false ->
  conversations (step st request) !! user_id request = Some history.
Proof.
  intros H. unfold is_ready, onboarding, next_state, get_response. rewrite H.
  destruct (student_emails st !! user_id request) as [[email|]|]; simpl; try done.
  destruct (is_knox_email _); simpl; done.
Qed.

Lemma step_conversation_ready st request history :
  chunks <> [] ->
  conversations st !! user_id request = Some history ->
  is_ready st (user_id request) = true ->
  exists context distances,
    get_context encode (message request) (index encode chunks) chunks TOP_K
    = inr (context, distances)
    /\ conversations (step st request) !! user_id request
       = Some (history
               ++ exchange_messages
                    (user_prompt context (message request),
                     chat (history
                           ++ [Message (py "user")
                                 (user_prompt context (message request))]))).
Proof.
  intros Hne H. unfold is_ready, onboarding. rewrite H.
  destruct (student_emails st !! user_id request) as [[email|]|] eqn:He; try done.
  intros _.
  destruct (get_context_total (message request) TOP_K Hne)
    as (context & distances & Hctx).
  exists context, distances. split; [done|].
  unfold next_state.
  erewrite get_response_ready; [|done..|apply chatbot_inr; eauto]. simpl.
  destruct (should_escalate _ _); simpl; rewrite lookup_insert_eq;
    by rewrite <- app_assoc.
Qed.

Lemma run_history st requests uid history :
  chunks <> [] ->
  conversations st !! uid = Some history ->
  exists exchanges,
    conversations (run_from st requests) !! uid
    = Some (history ++ flat_map exchange_messages exchanges)
    /\ length exchanges = ready_turns encode chat chunks st requests uid.
Proof.
  intros Hne. revert st history.
  induction requests as [|request requests IH]; intros st history H; simpl.
  - exists []. by rewrite app_nil_r.
  - destruct (decide (user_id request = uid)) as [<-|Hother].
    + destruct (is_ready st (user_id request)) eqn:Hr.
      * destruct (step_conversation_ready st request history Hne H Hr)
          as (context & distances & _ & Hstep).
        destruct (IH _ _ Hstep) as (exchanges & -> & <-).
        eexists (_ :: exchanges). simpl. split; [|done].
        by rewrite <- app_assoc.
      * pose proof (step_conversation_onboarding st request history H Hr) as Hstep.
        destruct (IH _ _ Hstep) as (exchanges & -> & <-). by exists exchanges.
    + destruct (next_state_other st request uid Hother) as [Hc _].
      rewrite <- Hc in H. destruct (IH _ _ H) as (exchanges & -> & <-).
      by exists exchanges.
Qed.

Lemma length_history_of exchanges :
  length (history_of exchanges) = (1 + 2 * length exchanges)%nat.
Proof.
  unfold history_of. simpl. f_equal.
  induction exchanges as [|e exchanges IH]; simpl; lia.
Qed.


End EndpointFacts.

(** *** The endpoint on the small instance *)

Example first_contact_is_greeted :
  get_response example_encode example_chat example_chunks initial_state
    (example_request "u1" "hello")
  = inr (INTRO, [], example_awaiting_state).
Proof. vm_compute. reflexivity. Qed.

Example address_is_confirmed :
  get_response example_encode example_chat example_chunks example_awaiting_state
    (example_request "u1" " Bob@knox.edu ")
  = inr (confirm_msg (py "Bob@knox.edu"), [], example_ready_state).
Proof. vm_compute. reflexivity. Qed.


Lemma onboarding_transitions_witness :
  onboarding example_awaiting_state (py "u1") = Some AwaitingEmail
  /\ onboarding
       (run example_encode example_chat example_chunks example_awaiting_state
          [example_request "u1" "what?"; example_request "u2" "bob@knox.edu";
           example_request "u1" "bob at knox.edu"])
       (py "u1")
     = Some AwaitingEmail.
Proof.
  assert (H : onboarding example_awaiting_state (py "u1") = Some AwaitingEmail)
    by (vm_compute; reflexivity).
  split; [exact H|].
  apply (proj1 (onboarding_transitions example_encode example_chat example_chunks
                  example_awaiting_state (py "u1") H)).
  repeat (apply Forall_cons; split); [..|by constructor];
    intros E; vm_compute in E |- *; first [reflexivity | discriminate E].
Defined.


(** ** JSON: what is written is read back *)

Section JsonStrings.

Import Json.

Lemma hex_value_hex_digit d : d < 16 -> hex_value (hex_digit d) = Some d.
Proof.
  intros Hd. unfold hex_digit, hex_value, in_range.
  destruct (N.ltb_spec d 10).
  - destruct (N.leb_spec 48 (48 + d)); [|lia].
    destruct (N.leb_spec (48 + d) 57); [|lia]. simpl. f_equal. lia.
  - destruct (N.leb_spec 48 (87 + d)); [|lia].
    destruct (N.leb_spec (87 + d) 57); [lia|].
    destruct (N.leb_spec 97 (87 + d)); [|lia].
    destruct (N.leb_spec (87 + d) 102); [|lia]. simpl. f_equal. lia.
Qed.

Lemma hex4_round_trip n :
  n < 65536 ->
  exists a b c d, hex4 n = [a; b; c; d] /\ hex4_value a b c d = Some n.
Proof.
  intros Hn. exists (hex_digit (n / 4096 mod 16)), (hex_digit (n / 256 mod 16)),
    (hex_digit (n / 16 mod 16)), (hex_digit (n mod 16)).
  split; [reflexivity|]. unfold hex4_value.
  rewrite !hex_value_hex_digit by (apply N.mod_lt; lia).
  f_equal. zify. Z.to_euclidean_division_equations. lia.
Qed.

Lemma scanstring_simple c rest :
  32 <= c -> c <> 34 -> c <> 92 ->
  scanstring (c :: rest) = push c (scanstring rest).
Proof.
  intros H1 H2 H3. simpl.
  destruct (N.eqb_spec c 34); [done|]. destruct (N.eqb_spec c 92); [done|].
  destruct (N.ltb_spec c 32); [lia | done].
Qed.

Lemma scanstring_escape e c rest :
  e <> 117 -> simple_escape e = Some c ->
  scanstring (92 :: e :: rest) = push c (scanstring rest).
Proof.
  intros He Hc. simpl. destruct (N.eqb_spec e 117); [done|]. by rewrite Hc.
Qed.

Lemma scanstring_u a b c d u rest :
  hex4_value a b c d = Some u ->
  is_high_surrogate u = false ->
  scanstring (92 :: 117 :: a :: b :: c :: d :: rest) = push u (scanstring rest).
Proof.
  intros Hu Hhi. simpl. rewrite Hu, Hhi. simpl.
  by destruct rest as [|? [|? [|? [|? [|? [|? [|? ?]]]]]]].
Qed.

Lemma scanstring_pair a b c d hi e f g h lo x rest :
  hex4_value a b c d = Some hi ->
  is_high_surrogate hi = true ->
  hex4_value e f g h = Some lo ->
  is_low_surrogate lo = true ->
  scanstring (92 :: 117 :: a :: b :: c :: d :: 92 :: 117 :: e :: f :: g :: h :: x :: rest)
  = push (join_surrogates hi lo) (scanstring (x :: rest)).
Proof.
  intros Hhi Hh Hlo Hl.
  change (scanstring (92 :: 117 :: a :: b :: c :: d :: 92 :: 117 :: e :: f :: g :: h :: x :: rest))
    with (match hex4_value a b c d with
          | None => None
          | Some u =>
              if is_high_surrogate u && (92 =? 92) && (117 =? 117) then
                match hex4_value e f g h with
                | None => None
                | Some u2 =>
                    if is_low_surrogate u2
                    then push (join_surrogates u u2) (scanstring (x :: rest))
                    else push u (scanstring (92 :: 117 :: e :: f :: g :: h :: x :: rest))
                end
              else push u (scanstring (92 :: 117 :: e :: f :: g :: h :: x :: rest))
          end).
  by rewrite Hhi, Hh, Hlo, Hl.
Qed.

Lemma surrogates_round_trip c :
  65536 <= c < 1114112 ->
  let v := c - 65536 in
  let hi := 55296 + (v / 1024) mod 1024 in
  let lo := 56320 + v mod 1024 in
  hi < 65536 /\ lo < 65536
  /\ is_high_surrogate hi = true /\ is_low_surrogate lo = true
  /\ join_surrogates hi lo = c.
Proof.
  intros Hc v hi lo.
  assert (Hhi : 55296 <= hi <= 56319)
    by (unfold hi, v; zify; Z.to_euclidean_division_equations; lia).
  assert (Hlo : 56320 <= lo <= 57343)
    by (unfold lo, v; zify; Z.to_euclidean_division_equations; lia).
  split; [lia|]. split; [lia|]. split; [|split].
  - unfold is_high_surrogate, in_range.
    apply andb_true_iff. split; apply N.leb_le; lia.
  - unfold is_low_surrogate, in_range.
    apply andb_true_iff. split; apply N.leb_le; lia.
  - unfold join_surrogates, hi, lo, v.
    zify. Z.to_euclidean_division_equations. lia.
Qed.

Lemma scanstring_escape_char c rest :
  is_scalar c = true -> rest <> [] ->
  scanstring (escape_char c ++ rest) = push c (scanstring rest).
Proof.
  intros Hc Hrest. unfold escape_char.
  destruct (N.eqb_spec c 34) as [->|]; [done|].
  destruct (N.eqb_spec c 92) as [->|]; [done|].
  destruct (N.eqb_spec c 10) as [->|]; [done|].
  destruct (N.eqb_spec c 13) as [->|]; [done|].
  destruct (N.eqb_spec c 9) as [->|]; [done|].
  destruct (N.eqb_spec c 8) as [->|]; [done|].
  destruct (N.eqb_spec c 12) as [->|]; [done|].
  assert (Hlow : c < 65536 -> ~ (32 <= c <= 126) ->
                 scanstring (([92; 117] ++ hex4 c) ++ rest) = push c (scanstring rest)).
  { intros Hlt Hout.
    destruct (hex4_round_trip c) as (a & b & c' & d & -> & Hv); [done|].
    apply (scanstring_u a b c' d c); [done|].
    unfold is_scalar in Hc. unfold is_high_surrogate, in_range.
    revert Hc. cmp_cases. }
  destruct (N.leb_spec 32 c); cbn [andb].
  - destruct (N.leb_spec c 126); [by apply scanstring_simple|].
    destruct (N.ltb_spec c 65536); [apply Hlow; lia|].
    unfold is_scalar in Hc.
    assert (65536 <= c < 1114112) as Hrange by (revert Hc; cmp_cases).
    destruct (surrogates_round_trip c Hrange) as (Hhi & Hlo & Hh & Hl & Hj).
    cbv zeta in *.
    destruct (hex4_round_trip _ Hhi) as (a & b & c' & d & -> & Hv1).
    destruct (hex4_round_trip _ Hlo) as (e & f & g & h & -> & Hv2).
    destruct rest as [|x rest]; [done|]. cbn [app].
    rewrite (scanstring_pair _ _ _ _ _ _ _ _ _ _ _ _ Hv1 Hh Hv2 Hl).
    by rewrite Hj.
  - destruct (N.ltb_spec c 65536); [|lia]. apply Hlow; lia.
Qed.

Lemma scanstring_round_trip s rest :
  scalar_text s ->
  scanstring (flat_map escape_char s ++ 34 :: rest) = Some (s, rest).
Proof.
  induction 1 as [|c s Hc _ IH]; simpl; [done|].
  rewrite <- app_assoc, scanstring_escape_char, IH; [done..|].
  by destruct (flat_map escape_char s).
Qed.

End JsonStrings.

Section JsonNumbers.

Import Json.

Variable float_repr : Q -> pystr.
Variable float_of_literal : pystr -> Q.

Lemma delimited_not_digit c rest : delimited (c :: rest) = true -> is_digit c = false.
Proof. unfold delimited, is_digit, in_range. cmp_cases. Qed.

Lemma span_digits_split s ds r :
  span_digits s = (ds, r) ->
  s = ds ++ r /\ Forall (fun c => is_digit c = true) ds.
Proof.
  revert ds r; induction s as [|c s IH]; intros ds r; simpl.
  - intros [= <- <-]. auto.
  - destruct (is_digit c) eqn:Hc.
    + destruct (span_digits s) as [ds' r']. intros [= <- <-].
      destruct (IH _ _ eq_refl) as [-> ?]. auto.
    + intros [= <- <-]. auto.
Qed.

Lemma span_digits_app s ds r rest :
  span_digits s = (ds, r) -> delimited rest = true ->
  span_digits (s ++ rest) = (ds, r ++ rest).
Proof.
  intros H Hrest. revert ds r H; induction s as [|c s IH]; intros ds r; simpl.
  - intros [= <- <-]. destruct rest as [|c rest]; [done|]. simpl.
    by rewrite (delimited_not_digit _ _ Hrest).
  - destruct (is_digit c) eqn:Hc; [|by intros [= <- <-]].
    destruct (span_digits s) as [ds' r']. intros [= <- <-].
    by rewrite (IH _ _ eq_refl).
Qed.

Lemma scan_int_split s i r1 :
  scan_int s = Some (i, r1) ->
  s = i ++ r1
  /\ Forall (fun c => is_graphic c = true) i
  /\ exists c t, s = c :: t
       /\ (is_digit c = true
           \/ (c = 45 /\ exists d t', t = d :: t' /\ is_digit d = true)).
Proof.
  unfold scan_int.
  assert (Hbody : forall sign s1,
             Forall (fun c => is_graphic c = true) sign ->
             match s1 with
             | d :: t =>
                 if d =? 48 then Some (sign ++ [48], t)
                 else if in_range 49 57 d then
                   let '(ds, rest) := span_digits t in Some (sign ++ d :: ds, rest)
                 else None
             | [] => None
             end = Some (i, r1) ->
             sign ++ s1 = i ++ r1
             /\ Forall (fun c => is_graphic c = true) i
             /\ exists d t, s1 = d :: t /\ is_digit d = true).
  { intros sign [|d t] Hsign; [done|].
    destruct (N.eqb_spec d 48) as [->|].
    - intros [= <- <-]. rewrite <- app_assoc. repeat split; [|eauto].
      apply Forall_app. split; [done|]. by repeat constructor.
    - destruct (in_range 49 57 d) eqn:Hd; [|done].
      destruct (span_digits t) as [ds rest] eqn:Hs. intros [= <- <-].
      apply span_digits_split in Hs as [-> Hds].
      assert (Hdig : is_digit d = true).
      { revert Hd. unfold is_digit, in_range. cmp_cases. }
      rewrite <- app_assoc. repeat split; [|eauto].
      apply Forall_app. split; [done|].
      constructor; [revert Hdig; unfold is_digit, is_graphic, in_range; cmp_cases|].
      eapply Forall_impl; [exact Hds|].
      intros c. unfold is_digit, is_graphic, in_range. cmp_cases. }
  destruct s as [|c t]; [done|].
  destruct (N.eqb_spec c 45) as [->|Hc].
  - intros H. destruct (Hbody [45] t) as (E & Hi & d & t' & -> & Hd);
      [by repeat constructor | done |].
    repeat split; [done | done |]. exists 45, (d :: t'). split; [done|].
    right. eauto.
  - intros H. destruct (Hbody [] (c :: t)) as (E & Hi & d & t' & [= <- <-] & Hd);
      [constructor | done |].
    repeat split; [done | done |]. exists c, t. auto.
Qed.

Lemma scan_int_app s i r1 rest :
  scan_int s = Some (i, r1) -> delimited rest = true ->
  scan_int (s ++ rest) = Some (i, r1 ++ rest).
Proof.
  intros H Hrest. unfold scan_int in *.
  destruct s as [|c t]; [done|]. simpl.
  destruct (c =? 45).
  - destruct t as [|d t]; [done|]. simpl.
    destruct (d =? 48); [by injection H as <- <-|].
    destruct (in_range 49 57 d); [|done].
    destruct (span_digits t) as [ds r] eqn:Hs. injection H as <- <-.
    by rewrite (span_digits_app _ _ _ _ Hs Hrest).
  - simpl. destruct (c =? 48); [by injection H as <- <-|].
    destruct (in_range 49 57 c); [|done].
    destruct (span_digits t) as [ds r] eqn:Hs. injection H as <- <-.
    by rewrite (span_digits_app _ _ _ _ Hs Hrest).
Qed.

Lemma scan_exp_split s e r :
  scan_exp s = (e, r) ->
  s = e ++ r /\ Forall (fun c => is_graphic c = true) e.
Proof.
  unfold scan_exp. destruct s as [|c t]; [by intros [= <- <-]|].
  destruct ((c =? 101) || (c =? 69)) eqn:Hc; [|by intros [= <- <-]].
  assert (Hcg : is_graphic c = true).
  { revert Hc. unfold is_graphic, in_range. cmp_cases. }
  assert (Hdigits : forall sign t1,
             Forall (fun c => is_graphic c = true) sign ->
             t = sign ++ t1 ->
             match span_digits t1 with
             | ([], _) => ([], c :: t)
             | (ds, rest) => (c :: sign ++ ds, rest)
             end = (e, r) ->
             c :: t = e ++ r /\ Forall (fun c => is_graphic c = true) e).
  { intros sign t1 Hsign -> H.
    destruct (span_digits t1) as [[|d ds] rest] eqn:Hs; injection H as <- <-; [auto|].
    apply span_digits_split in Hs as [-> Hds]. simpl.
    rewrite <- app_assoc. split; [done|]. constructor; [done|].
    apply Forall_app. split; [done|].
    eapply Forall_impl; [exact Hds|].
    intros x. unfold is_digit, is_graphic, in_range. cmp_cases. }
  destruct t as [|x t']; [apply (Hdigits [] []); by constructor|].
  destruct ((x =? 43) || (x =? 45)) eqn:Hx.
  - apply (Hdigits [x] t'); [|done]. repeat constructor.
    revert Hx. unfold is_graphic, in_range. cmp_cases.
  - apply (Hdigits [] (x :: t')); by constructor.
Qed.

Lemma scan_exp_app s e rest :
  scan_exp s = (e, []) -> delimited rest = true ->
  scan_exp (s ++ rest) = (e, rest).
Proof.
  intros H Hrest. unfold scan_exp in *.
  destruct s as [|c t]; simpl.
  - injection H as <-. destruct rest as [|c rest]; [done|].
    replace ((c =? 101) || (c =? 69)) with false; [done|].
    revert Hrest. unfold delimited. cmp_cases.
  - destruct ((c =? 101) || (c =? 69)); [|done].
    destruct t as [|x t']; [done|]. simpl.
    destruct ((x =? 43) || (x =? 45)).
    + destruct (span_digits t') as [[|d ds] r] eqn:Hs; [done|]. injection H as <- ->.
      by rewrite (span_digits_app _ _ _ _ Hs Hrest).
    + destruct (span_digits (x :: t')) as [[|d ds] r] eqn:Hs; [done|].
      injection H as <- ->.
      change (x :: t' ++ rest) with ((x :: t') ++ rest).
      by rewrite (span_digits_app _ _ _ _ Hs Hrest).
Qed.

Lemma scan_frac_split s f r :
  scan_frac s = (f, r) ->
  s = f ++ r /\ Forall (fun c => is_graphic c = true) f.
Proof.
  unfold scan_frac. destruct s as [|c t]; [by intros [= <- <-]|].
  destruct (N.eqb_spec c 46) as [->|]; [|by intros [= <- <-]].
  destruct (span_digits t) as [[|d ds] rest] eqn:Hs; intros [= <- <-]; [auto|].
  apply span_digits_split in Hs as [-> Hds]. split; [done|].
  constructor; [done|]. eapply Forall_impl; [exact Hds|].
  intros x. unfold is_digit, is_graphic, in_range. cmp_cases.
Qed.

Lemma scan_frac_app s f r e rest :
  scan_frac s = (f, r) -> scan_exp r = (e, []) -> delimited rest = true ->
  scan_frac (s ++ rest) = (f, r ++ rest).
Proof.
  intros H He Hrest. unfold scan_frac in *.
  destruct s as [|c t]; simpl.
  - injection H as <- <-. destruct rest as [|c rest]; [done|].
    replace (c =? 46) with false; [done|].
    revert Hrest. unfold delimited. cmp_cases.
  - destruct (N.eqb_spec c 46) as [->|]; [|by injection H as <- <-].
    destruct (span_digits t) as [[|d ds] r'] eqn:Hs; injection H as <- <-.
    + unfold scan_exp in He. simpl in He. done.
    + by rewrite (span_digits_app _ _ _ _ Hs Hrest).
Qed.

(** A float literal, followed by a delimiter, is scanned as a whole. *)
Lemma scan_number_float_literal s rest :
  is_float_literal s = true -> delimited rest = true ->
  scan_number float_of_literal (s ++ rest)
  = Some (Num (float_of_literal s), rest).
Proof.
  unfold is_float_literal, scan_number. intros H Hrest.
  destruct (scan_int s) as [[i r1]|] eqn:Hi; [|done].
  destruct (scan_frac r1) as [f r2] eqn:Hf.
  destruct (scan_exp r2) as [e r3] eqn:He.
  destruct r3 as [|? ?]; [|done].
  rewrite (scan_int_app _ _ _ _ Hi Hrest).
  rewrite (scan_frac_app _ _ _ _ _ Hf He Hrest).
  rewrite (scan_exp_app _ _ _ He Hrest).
  apply scan_int_split in Hi as (-> & _ & _).
  apply scan_frac_split in Hf as (-> & _).
  apply scan_exp_split in He as (-> & _). rewrite app_nil_r.
  destruct f as [|? ?], e as [|? ?]; done.
Qed.

Lemma startswith_head_ne c s p prefix :
  p <> c -> startswith (c :: s) (p :: prefix) = false.
Proof. intros H. simpl. by destruct (N.eqb_spec p c). Qed.

Lemma startswith_second_ne c d s p1 p2 prefix :
  p2 <> d -> startswith (c :: d :: s) (p1 :: p2 :: prefix) = false.
Proof.
  intros H. simpl. destruct (N.eqb_spec p2 d); [done|]. apply andb_false_r.
Qed.

Ltac no_prefix :=
  repeat match goal with
         | |- context [startswith ?s (py ?lit)] =>
             replace (startswith s (py lit)) with false
               by (symmetry;
                   first [apply startswith_head_ne;
                          let E := fresh in intros E; vm_compute in E; lia
                         | apply startswith_second_ne;
                           let E := fresh in intros E; vm_compute in E; lia])
         end.

Lemma float_literal_graphic s :
  is_float_literal s = true ->
  Forall (fun c => is_graphic c = true) s /\ s <> []
  /\ forall rest, scan_constant float_of_literal (s ++ rest)
                  = scan_number float_of_literal (s ++ rest).
Proof.
  unfold is_float_literal. intros H.
  destruct (scan_int s) as [[i r1]|] eqn:Hi; [|done].
  destruct (scan_frac r1) as [f r2] eqn:Hf.
  destruct (scan_exp r2) as [e r3] eqn:He.
  destruct r3 as [|? ?]; [|done].
  apply scan_int_split in Hi as (E1 & Hgi & c & t & Es & Hhead).
  apply scan_frac_split in Hf as (E2 & Hgf).
  apply scan_exp_split in He as (E3 & Hge).
  split; [|split].
  - rewrite E1, E2, E3, app_nil_r. by rewrite !Forall_app.
  - by rewrite Es.
  - intros rest. rewrite Es. unfold scan_constant.
    destruct Hhead as [Hd|(-> & d & t' & -> & Hd)].
    + assert (Hc : 48 <= c <= 57).
      { revert Hd. unfold is_digit, in_range. cmp_cases. }
      change ((c :: t) ++ rest) with (c :: t ++ rest). by no_prefix.
    + assert (Hc : 48 <= d <= 57).
      { revert Hd. unfold is_digit, in_range. cmp_cases. }
      change ((45 :: d :: t') ++ rest) with (45 :: d :: t' ++ rest). by no_prefix.
Qed.

End JsonNumbers.

Section JsonValues.

Import Json.

Variable float_repr : Q -> pystr.
Variable float_of_literal : pystr -> Q.

Local Abbreviation wf := (wf_value float_repr float_of_literal).
Local Abbreviation write := (Json.dumps float_repr).
Local Abbreviation scan := (scan_once float_of_literal).
Local Abbreviation reads_back := (reads_back float_repr float_of_literal).

Lemma value_ind_nested (P : value -> Prop) :
  P Null -> (forall b, P (Bool b)) -> (forall x, P (Num x)) -> (forall s, P (Str s)) ->
  (forall xs, Forall P xs -> P (Arr xs)) ->
  (forall members, Forall (fun kv => P (snd kv)) members -> P (Obj members)) ->
  forall v, P v.
Proof.
  intros HNull HBool HNum HStr HArr HObj.
  fix IH 1. intros [ |b|x|s|xs|members].
  - exact HNull.
  - apply HBool.
  - apply HNum.
  - apply HStr.
  - apply HArr.
    exact ((fix all (xs : list value) : Forall P xs :=
              match xs with
              | [] => @List.Forall_nil _ P
              | x :: xs' => @List.Forall_cons _ P x xs' (IH x) (all xs')
              end) xs).
  - apply HObj.
    exact ((fix all (ms : list (pystr * value)) : Forall (fun kv => P (snd kv)) ms :=
              match ms with
              | [] => @List.Forall_nil _ (fun kv => P (snd kv))
              | kv :: ms' =>
                  @List.Forall_cons _ (fun kv => P (snd kv)) kv ms' (IH (snd kv)) (all ms')
              end) members).
Qed.

Lemma wf_Arr xs : wf (Arr xs) <-> Forall wf xs.
Proof.
  simpl. induction xs as [|x xs IH]; [split; [constructor | done]|].
  rewrite Forall_cons, <- IH. done.
Qed.

Lemma wf_Obj members :
  wf (Obj members) <->
  NoDup (map fst members)
  /\ Forall (fun kv => scalar_text (fst kv) /\ wf (snd kv)) members.
Proof.
  simpl. apply and_iff_compat_l.
  induction members as [|kv members IH]; [split; [constructor | done]|].
  rewrite Forall_cons, <- IH. tauto.
Qed.

Lemma scan_calls_Arr xs : scan_calls (Arr xs) = S (elements_calls xs).
Proof.
  reflexivity.
Qed.

Lemma scan_calls_Obj members : scan_calls (Obj members) = S (members_calls members).
Proof.
  reflexivity.
Qed.

Lemma dumps_Obj members :
  write (Obj members)
  = [123] ++ join (py ", ") (map (dumps_member float_repr) members) ++ [125].
Proof. reflexivity. Qed.

Lemma skip_ws_head c s : is_ws c = false -> skip_ws (c :: s) = c :: s.
Proof. intros H. simpl. by rewrite H. Qed.

(** What [dumps] writes starts with a character that is neither white space
    nor a closing bracket. *)
Lemma dumps_head v :
  wf v -> exists c t, write v = c :: t /\ is_ws c = false /\ c <> 93.
Proof.
  destruct v as [ |[|]|x|s|xs|members]; simpl; intros H; try by eauto.
  destruct H as [H _]. unfold is_float_literal in H.
  destruct (scan_int (float_repr x)) as [[i r1]|] eqn:Hi; [|done].
  apply scan_int_split in Hi as (_ & _ & c & t & -> & Hhead).
  exists c, t. split; [done|].
  destruct Hhead as [Hd|(-> & _)]; [|done].
  revert Hd. unfold is_digit, is_ws, in_range. cmp_cases.
Qed.

Lemma skip_ws_dumps v rest : wf v -> skip_ws (write v ++ rest) = write v ++ rest.
Proof.
  intros (c & t & -> & Hc & _)%dumps_head. by apply skip_ws_head.
Qed.

Lemma scan_once_quote fuel s :
  scan (S fuel) (34 :: s)
  = match scanstring s with
    | Some (str, rest) => Some (Str str, rest)
    | None => None
    end.
Proof. reflexivity. Qed.

Lemma encode_string_app s rest :
  encode_string s ++ rest = 34 :: (flat_map escape_char s ++ 34 :: rest).
Proof. unfold encode_string. by rewrite <- !app_assoc. Qed.

Lemma scan_string_dumps s fuel rest :
  scalar_text s ->
  scan (S fuel) (encode_string s ++ rest) = Some (Str s, rest).
Proof.
  intros Hs.
  by rewrite encode_string_app, scan_once_quote, scanstring_round_trip.
Qed.

Lemma scan_number_dumps x fuel rest :
  float_round_trips float_repr float_of_literal x -> delimited rest = true ->
  scan (S fuel) (float_repr x ++ rest) = Some (Num x, rest).
Proof.
  intros [Hlit Hval] Hrest.
  destruct (float_literal_graphic float_of_literal _ Hlit) as (_ & _ & Hconst).
  unfold is_float_literal in Hlit.
  destruct (scan_int (float_repr x)) as [[i r1]|] eqn:Hi; [|done].
  pose proof Hi as Hi'.
  apply scan_int_split in Hi' as (_ & _ & c & t & E & Hhead).
  assert (Hc : c <> 34 /\ c <> 123 /\ c <> 91).
  { destruct Hhead as [Hd|(-> & _)]; [|done].
    revert Hd. unfold is_digit, in_range. cmp_cases. }
  destruct Hc as (? & ? & ?).
  assert (Hscan : scan_constant float_of_literal (float_repr x ++ rest)
                  = Some (Num x, rest)).
  { rewrite Hconst, scan_number_float_literal; [by rewrite Hval| |done].
    unfold is_float_literal. by rewrite Hi. }
  rewrite E in Hscan |- *. simpl.
  destruct (N.eqb_spec c 34); [done|]. destruct (N.eqb_spec c 123); [done|].
  destruct (N.eqb_spec c 91); [done|]. exact Hscan.
Qed.

Lemma scan_once_array fuel s :
  scan (S fuel) (91 :: s)
  = match skip_ws s with
    | c1 :: rest =>
        if c1 =? 93 then Some (Arr [], rest)
        else
          match scan_elements float_of_literal fuel (c1 :: rest) with
          | Some (xs, rest') => Some (Arr xs, rest')
          | None => None
          end
    | [] => None
    end.
Proof. reflexivity. Qed.

Lemma scan_once_object fuel s :
  scan (S fuel) (123 :: s)
  = match skip_ws s with
    | c1 :: rest =>
        if c1 =? 125 then Some (Obj [], rest)
        else
          match scan_members float_of_literal fuel (c1 :: rest) with
          | Some (kvs, rest') => Some (Obj (dict_of_pairs kvs), rest')
          | None => None
          end
    | [] => None
    end.
Proof. reflexivity. Qed.

Lemma scan_elements_step fuel s :
  scan_elements float_of_literal (S fuel) s
  = match scan fuel s with
    | None => None
    | Some (v, rest) =>
        match skip_ws rest with
        | c :: rest1 =>
            if c =? 93 then Some ([v], rest1)
            else if c =? 44 then
              match scan_elements float_of_literal fuel (skip_ws rest1) with
              | Some (vs, rest2) => Some (v :: vs, rest2)
              | None => None
              end
            else None
        | [] => None
        end
    end.
Proof. reflexivity. Qed.

Lemma scan_members_step fuel s :
  scan_members float_of_literal (S fuel) (34 :: s)
  = match scanstring s with
    | None => None
    | Some (key, rest) =>
        match skip_ws rest with
        | c :: rest1 =>
            if c =? 58 then
              match scan fuel (skip_ws rest1) with
              | None => None
              | Some (v, rest2) =>
                  match skip_ws rest2 with
                  | c2 :: rest3 =>
                      if c2 =? 125 then Some ([(key, v)], rest3)
                      else if c2 =? 44 then
                        match scan_members float_of_literal fuel (skip_ws rest3) with
                        | Some (kvs, rest4) => Some ((key, v) :: kvs, rest4)
                        | None => None
                        end
                      else None
                  | [] => None
                  end
              end
            else None
        | [] => None
        end
    end.
Proof. reflexivity. Qed.

Lemma scan_elements_dumps xs :
  xs <> [] ->
  Forall (fun x => wf x /\ reads_back x) xs ->
  forall fuel rest,
    (elements_calls xs <= fuel)%nat ->
    scan_elements float_of_literal fuel
      (join (py ", ") (map write xs) ++ 93 :: rest)
    = Some (xs, rest).
Proof.
  intros Hne Hall. induction Hall as [|x xs [Hwf Hx] Hall IH]; [done|].
  intros fuel rest Hfuel. simpl in Hfuel.
  destruct fuel as [|fuel]; [lia|]. rewrite scan_elements_step.
  destruct xs as [|y ys].
  - simpl. rewrite Hx by (simpl; lia || done). by rewrite skip_ws_head.
  - change (join (py ", ") (map write (x :: y :: ys)))
      with (write x ++ py ", " ++ join (py ", ") (map write (y :: ys))).
    rewrite <- !app_assoc.
    rewrite Hx by (simpl; lia || done).
    change (py ", " ++ ?s) with (44 :: 32 :: s).
    rewrite skip_ws_head by done. simpl (44 =? 93). simpl (44 =? 44). cbv iota.
    assert (Hskip : forall s, skip_ws (32 :: s) = skip_ws s) by done.
    rewrite Hskip.
    assert (Hys : skip_ws (join (py ", ") (map write (y :: ys)) ++ 93 :: rest)
                  = join (py ", ") (map write (y :: ys)) ++ 93 :: rest).
    { apply Forall_cons in Hall as [[Hy _] _].
      destruct (dumps_head y Hy) as (c & t & E & Hc & _).
      destruct ys; simpl; rewrite E; simpl; by rewrite Hc. }
    rewrite Hys, IH by (done || simpl in *; lia). done.
Qed.

Lemma scan_members_dumps members :
  members <> [] ->
  Forall (fun kv => scalar_text (fst kv) /\ wf (snd kv) /\ reads_back (snd kv)) members ->
  forall fuel rest,
    (members_calls members <= fuel)%nat ->
    scan_members float_of_literal fuel
      (join (py ", ") (map (dumps_member float_repr) members) ++ 125 :: rest)
    = Some (members, rest).
Proof.
  intros Hne Hall. induction Hall as [|[k v] ms (Hk & Hwf & Hv) Hall IH]; [done|].
  intros fuel rest Hfuel. simpl in Hfuel, Hk, Hwf, Hv.
  destruct fuel as [|fuel]; [lia|].
  assert (Hskip : forall s, skip_ws (32 :: s) = skip_ws s) by done.
  assert (Hmember : forall tail,
             dumps_member float_repr (k, v) ++ tail
             = 34 :: (flat_map escape_char k ++ 34 :: 58 :: 32 :: (write v ++ tail))).
  { intros tail. unfold dumps_member. simpl fst. simpl snd.
    rewrite <- !app_assoc, encode_string_app. done. }
  destruct ms as [|kv' ms'].
  - simpl join. rewrite Hmember, scan_members_step, scanstring_round_trip by done.
    rewrite skip_ws_head by done. simpl (58 =? 58). cbv iota.
    rewrite Hskip, skip_ws_dumps by done.
    rewrite Hv by (lia || done). by rewrite skip_ws_head.
  - change (join (py ", ") (map (dumps_member float_repr) ((k, v) :: kv' :: ms')))
      with (dumps_member float_repr (k, v) ++ py ", "
            ++ join (py ", ") (map (dumps_member float_repr) (kv' :: ms'))).
    rewrite <- !app_assoc.
    rewrite Hmember, scan_members_step, scanstring_round_trip by done.
    rewrite skip_ws_head by done. simpl (58 =? 58). cbv iota.
    rewrite Hskip, skip_ws_dumps by done.
    rewrite Hv by (lia || done).
    change (py ", " ++ ?s) with (44 :: 32 :: s).
    rewrite skip_ws_head by done. simpl (44 =? 125). simpl (44 =? 44). cbv iota.
    rewrite Hskip.
    assert (Hnext : forall tail,
               skip_ws (join (py ", ") (map (dumps_member float_repr) (kv' :: ms'))
                        ++ tail)
               = join (py ", ") (map (dumps_member float_repr) (kv' :: ms')) ++ tail).
    { intros tail. destruct ms'; simpl; unfold dumps_member, encode_string; done. }
    rewrite Hnext, IH by (done || simpl in *; lia). done.
Qed.

Lemma dict_set_fresh k v d :
  k ∉ map fst d -> dict_set k v d = d ++ [(k, v)].
Proof.
  induction d as [|[k' v'] d IH]; simpl; [done|].
  intros Hk. apply not_elem_of_cons in Hk as [Hne Hk].
  destruct (decide (k' = k)); [done|]. by rewrite IH.
Qed.

Lemma dict_of_pairs_NoDup members :
  NoDup (map fst members) -> dict_of_pairs members = members.
Proof.
  unfold dict_of_pairs.
  enough (H : forall acc, NoDup (map fst (acc ++ members)) ->
                          fold_left (fun d kv => dict_set (fst kv) (snd kv) d) members acc
                          = acc ++ members) by apply (H []).
  induction members as [|[k v] ms IH]; intros acc Hnd; simpl.
  - by rewrite app_nil_r.
  - rewrite dict_set_fresh.
    + rewrite IH; rewrite <- app_assoc; done.
    + rewrite map_app in Hnd. apply NoDup_app in Hnd as (_ & Hdis & _).
      intros Hin. apply (Hdis k Hin). simpl. left.
Qed.

Lemma scan_once_dumps v : wf v -> reads_back v.
Proof.
  induction v as [ |b|x|s|xs IH|members IH] using value_ind_nested;
    intros Hwf fuel rest Hfuel Hrest.
  - destruct fuel; [simpl in Hfuel; lia | reflexivity].
  - destruct fuel; [simpl in Hfuel; lia|]. by destruct b.
  - destruct fuel; [simpl in Hfuel; lia|]. by apply scan_number_dumps.
  - destruct fuel; [simpl in Hfuel; lia|]. by apply scan_string_dumps.
  - rewrite scan_calls_Arr in Hfuel. destruct fuel as [|fuel]; [lia|].
    apply wf_Arr in Hwf.
    change (write (Arr xs)) with ([91] ++ join (py ", ") (map write xs) ++ [93]).
    rewrite <- !app_assoc. change ([91] ++ ?s) with (91 :: s).
    change ([93] ++ ?s) with (93 :: s). rewrite scan_once_array.
    destruct xs as [|x xs]; [reflexivity|].
    assert (Hall : Forall (fun x => wf x /\ reads_back x) (x :: xs)).
    { rewrite Forall_forall in IH, Hwf. apply Forall_forall. intros y Hy. auto. }
    assert (Hhead : exists c t,
               join (py ", ") (map write (x :: xs)) ++ 93 :: rest = c :: t
               /\ is_ws c = false /\ c <> 93).
    { apply Forall_cons in Hwf as [Hx _].
      destruct (dumps_head x Hx) as (c & t & E & Hc & Hc').
      destruct xs; simpl; rewrite E; simpl; eauto. }
    destruct Hhead as (c & t & E & Hc & Hc').
    rewrite E, skip_ws_head by done.
    destruct (N.eqb_spec c 93); [done|].
    rewrite <- E, scan_elements_dumps by (done || lia). done.
  - rewrite scan_calls_Obj in Hfuel. destruct fuel as [|fuel]; [lia|].
    apply wf_Obj in Hwf as [Hnd Hwf].
    rewrite dumps_Obj, <- !app_assoc. change ([123] ++ ?s) with (123 :: s).
    change ([125] ++ ?s) with (125 :: s). rewrite scan_once_object.
    destruct members as [|kv ms]; [reflexivity|].
    assert (Hall : Forall (fun kv => scalar_text (fst kv) /\ wf (snd kv)
                                     /\ reads_back (snd kv)) (kv :: ms)).
    { rewrite Forall_forall in IH, Hwf. apply Forall_forall. intros y Hy.
      destruct (Hwf y Hy). auto. }
    assert (Hhead : exists t,
               join (py ", ") (map (dumps_member float_repr) (kv :: ms)) ++ 125 :: rest
               = 34 :: t).
    { destruct ms; simpl; unfold dumps_member, encode_string; simpl; eauto. }
    destruct Hhead as (t & E).
    rewrite E, skip_ws_head by done. simpl (34 =? 125). cbv iota.
    rewrite <- E, scan_members_dumps by (done || lia).
    by rewrite dict_of_pairs_NoDup.
Qed.

Lemma join_cons2 sep (p q : pystr) parts :
  join sep (p :: q :: parts) = p ++ sep ++ join sep (q :: parts).
Proof. reflexivity. Qed.

Lemma length_join_cons sep (p : pystr) parts :
  (length p <= length (join sep (p :: parts)))%nat
  /\ (parts <> [] ->
      length (join sep (p :: parts))
      = (length p + length sep + length (join sep parts))%nat).
Proof.
  destruct parts as [|q parts]; [simpl; split; [lia | congruence]|].
  rewrite join_cons2, !length_app. split; [lia | intros _; lia].
Qed.

Lemma elements_calls_le xs :
  Forall (fun x => (scan_calls x <= length (write x))%nat) xs ->
  (elements_calls xs <= length (join (py ", ") (map write xs)) + 1)%nat.
Proof.
  induction 1 as [|x xs Hx _ IH]; [simpl; lia|].
  change (elements_calls (x :: xs)) with (S (scan_calls x + elements_calls xs)).
  change (map write (x :: xs)) with (write x :: map write xs).
  destruct (length_join_cons (py ", ") (write x) (map write xs)) as [Hle Heq].
  destruct xs as [|y ys]; [simpl in *; lia|].
  rewrite Heq by done. change (length (py ", ")) with 2%nat. lia.
Qed.

Lemma members_calls_le members :
  Forall (fun kv => (scan_calls (snd kv) <= length (write (snd kv)))%nat) members ->
  (members_calls members
   <= length (join (py ", ") (map (dumps_member float_repr) members)) + 1)%nat.
Proof.
  induction 1 as [|kv ms Hx _ IH]; [simpl; lia|].
  change (members_calls (kv :: ms))
    with (S (scan_calls (snd kv) + members_calls ms)).
  change (map (dumps_member float_repr) (kv :: ms))
    with (dumps_member float_repr kv :: map (dumps_member float_repr) ms).
  assert (length (write (snd kv)) <= length (dumps_member float_repr kv))%nat.
  { unfold dumps_member. rewrite !length_app. lia. }
  destruct (length_join_cons (py ", ") (dumps_member float_repr kv)
              (map (dumps_member float_repr) ms)) as [Hle Heq].
  destruct ms as [|y ys]; [simpl in *; lia|].
  rewrite Heq by done. change (length (py ", ")) with 2%nat. lia.
Qed.

Lemma scan_calls_le_length v : wf v -> (scan_calls v <= length (write v))%nat.
Proof.
  induction v as [ |b|x|s|xs IH|members IH] using value_ind_nested; intros Hwf.
  - simpl. lia.
  - destruct b; simpl; lia.
  - destruct Hwf as [Hlit _].
    destruct (float_literal_graphic float_of_literal _ Hlit) as (_ & Hne & _).
    simpl. destruct (float_repr x); [done | simpl; lia].
  - simpl. unfold encode_string. rewrite !length_app. simpl. lia.
  - apply wf_Arr in Hwf. rewrite scan_calls_Arr.
    change (write (Arr xs)) with ([91] ++ join (py ", ") (map write xs) ++ [93]).
    rewrite !length_app. simpl.
    enough (elements_calls xs <= length (join (py ", ") (map write xs)) + 1)%nat by lia.
    apply elements_calls_le. rewrite Forall_forall in IH, Hwf.
    apply Forall_forall. auto.
  - apply wf_Obj in Hwf as [_ Hwf]. rewrite scan_calls_Obj, dumps_Obj.
    rewrite !length_app. simpl.
    enough (members_calls members
            <= length (join (py ", ") (map (dumps_member float_repr) members)) + 1)%nat
      by lia.
    apply members_calls_le. rewrite Forall_forall in IH, Hwf.
    apply Forall_forall. intros kv Hkv. apply IH; [done|]. by apply Hwf.
Qed.

(** [json.loads(json.dumps(v)) == v]. *)
Lemma loads_dumps v : wf v -> Json.loads float_of_literal (write v) = inr v.
Proof.
  intros Hwf. unfold Json.loads.
  rewrite <- (app_nil_r (write v)) at 2.
  rewrite skip_ws_dumps by done.
  rewrite (scan_once_dumps v Hwf); [done| |done].
  pose proof (scan_calls_le_length v Hwf). lia.
Qed.

(** *** What [dumps] writes is printable ASCII *)

Lemma printable_hex_digit d : d < 16 -> printable (hex_digit d).
Proof.
  intros Hd. unfold printable, hex_digit. destruct (N.ltb_spec d 10); lia.
Qed.

Lemma printable_hex4 n : Forall printable (hex4 n).
Proof.
  unfold hex4. repeat constructor; apply printable_hex_digit, N.mod_lt; lia.
Qed.

Lemma printable_escape_char c : Forall printable (escape_char c).
Proof.
  unfold escape_char.
  repeat match goal with
         | |- context [N.eqb c ?k] =>
             destruct (N.eqb_spec c k);
             [repeat constructor; unfold printable; lia|]
         end.
  destruct (N.leb_spec 32 c), (N.leb_spec c 126), (N.ltb_spec c 65536); cbn [andb];
    try (by repeat constructor);
    repeat (apply Forall_app; split); try apply printable_hex4;
    repeat constructor; unfold printable; lia.
Qed.

Lemma printable_encode_string s : Forall printable (encode_string s).
Proof.
  unfold encode_string. repeat (apply Forall_app; split).
  - repeat constructor; unfold printable; lia.
  - induction s as [|c s IH]; simpl; [constructor|].
    apply Forall_app. split; [apply printable_escape_char | done].
  - repeat constructor; unfold printable; lia.
Qed.

Lemma printable_join sep parts :
  Forall printable sep -> Forall (Forall printable) parts ->
  Forall printable (join sep parts).
Proof.
  intros Hsep. induction 1 as [|p parts Hp Hparts IH]; simpl; [constructor|].
  destruct parts; [done|]. repeat (apply Forall_app; split); done.
Qed.

Lemma printable_py_comma : Forall printable (py ", ").
Proof. repeat constructor; unfold printable; simpl; lia. Qed.

Lemma printable_dumps v : wf v -> Forall printable (write v).
Proof.
  induction v as [ |b|x|s|xs IH|members IH] using value_ind_nested; intros Hwf.
  - repeat constructor; unfold printable; simpl; lia.
  - destruct b; repeat constructor; unfold printable; simpl; lia.
  - destruct Hwf as [Hlit _].
    destruct (float_literal_graphic float_of_literal _ Hlit) as (Hg & _ & _).
    eapply Forall_impl; [exact Hg|].
    intros c. unfold is_graphic, in_range, printable. cmp_cases.
  - apply printable_encode_string.
  - apply wf_Arr in Hwf.
    change (write (Arr xs)) with ([91] ++ join (py ", ") (map write xs) ++ [93]).
    repeat (apply Forall_app; split).
    + repeat constructor; unfold printable; lia.
    + apply printable_join; [apply printable_py_comma|].
      apply Forall_map. rewrite Forall_forall in IH, Hwf. apply Forall_forall. auto.
    + repeat constructor; unfold printable; lia.
  - apply wf_Obj in Hwf as [_ Hwf]. rewrite dumps_Obj.
    repeat (apply Forall_app; split).
    + repeat constructor; unfold printable; lia.
    + apply printable_join; [apply printable_py_comma|].
      apply Forall_map. rewrite Forall_forall in IH, Hwf. apply Forall_forall.
      intros kv Hkv. unfold dumps_member.
      apply Forall_app. split; [apply printable_encode_string|].
      apply Forall_app. split.
      * repeat constructor; unfold printable; simpl; lia.
      * apply IH; [done|]. by apply Hwf.
    + repeat constructor; unfold printable; lia.
Qed.

End JsonValues.

(** ** The escalation log *)

Section LogFacts.

Variable float_repr : Q -> pystr.
Variable float_of_literal : pystr -> Q.

Local Abbreviation wf := (wf_value float_repr float_of_literal).
Local Abbreviation load := (load_escalations float_of_literal).
Local Abbreviation load_one := (load_line float_of_literal).

(** *** Lines of a text *)

Lemma readlines_from_line line a b :
  one_line a ->
  readlines_from line (a ++ 10 :: b) = (line ++ a ++ [10]) :: readlines_from [] b.
Proof.
  intros Ha. revert line. induction Ha as [|c a [Hc1 Hc2] _ IH]; intros line; simpl.
  - done.
  - destruct (N.eqb_spec c 10); [done|]. destruct (N.eqb_spec c 13); [done|].
    rewrite IH. by rewrite <- app_assoc.
Qed.

Lemma readlines_from_last line a :
  one_line a -> a <> [] \/ line <> [] ->
  readlines_from line a = [line ++ a].
Proof.
  intros Ha. revert line. induction Ha as [|c a [Hc1 Hc2] _ IH]; intros line Hne; simpl.
  - destruct line; [by destruct Hne | by rewrite app_nil_r].
  - destruct (N.eqb_spec c 10); [done|]. destruct (N.eqb_spec c 13); [done|].
    rewrite IH; [by rewrite <- app_assoc|]. right. by destruct line.
Qed.

Lemma readlines_from_app n line a b :
  (length a <= n)%nat ->
  readlines_from line ((a ++ [10]) ++ b)
  = readlines_from line (a ++ [10]) ++ readlines_from [] b.
Proof.
  revert line a. induction n as [|n IH]; intros line a Hn.
  - destruct a; [|simpl in Hn; lia]. simpl. done.
  - destruct a as [|c a]; [done|]. simpl in Hn.
    change (((c :: a) ++ [10]) ++ b) with (c :: ((a ++ [10]) ++ b)).
    change ((c :: a) ++ [10]) with (c :: (a ++ [10])).
    cbn [readlines_from].
    destruct (c =? 10); [by rewrite IH by lia|].
    destruct (c =? 13); [|by rewrite IH by lia].
    destruct a as [|c' a]; [done|].
    change (((c' :: a) ++ [10]) ++ b) with (c' :: ((a ++ [10]) ++ b)).
    change ((c' :: a) ++ [10]) with (c' :: (a ++ [10])).
    cbv iota. destruct (c' =? 10).
    + simpl in Hn. by rewrite IH by lia.
    + change (c' :: (a ++ [10]) ++ b) with (((c' :: a) ++ [10]) ++ b).
      change (c' :: a ++ [10]) with ((c' :: a) ++ [10]).
      by rewrite IH by lia.
Qed.

Lemma readlines_app a b :
  readlines ((a ++ [10]) ++ b) = readlines (a ++ [10]) ++ readlines b.
Proof. by apply (readlines_from_app (length a)). Qed.

(** *** Reading is line by line *)

Lemma fold_load_line lines records :
  fold_left load_one lines records = records ++ fold_left load_one lines [].
Proof.
  revert records. induction lines as [|line lines IH]; intros records; simpl.
  - by rewrite app_nil_r.
  - rewrite IH, (IH (load_one [] line)). rewrite app_assoc. f_equal.
    unfold load_line. destruct (strip line); [by rewrite app_nil_r|].
    destruct (loads _ _); [by rewrite app_nil_r | done].
Qed.

Lemma load_app a b :
  load (Some ((a ++ [10]) ++ b)) = load (Some (a ++ [10])) ++ load (Some b).
Proof.
  unfold load_escalations. rewrite readlines_app, fold_left_app.
  apply fold_load_line.
Qed.

Lemma load_whole_lines text b :
  whole_lines (Some text) ->
  load (Some (text ++ b)) = load (Some text) ++ load (Some b).
Proof.
  intros [->|[a ->]]; [done | apply load_app].
Qed.

Lemma load_single_line line :
  one_line line -> load (Some (line ++ [10])) = load_one [] (line ++ [10]).
Proof.
  intros Hl. unfold load_escalations, readlines.
  change (line ++ [10]) with (line ++ 10 :: []) at 1.
  by rewrite readlines_from_line.
Qed.

Lemma load_last_line line :
  one_line line -> load (Some line) = load_one [] line.
Proof.
  intros Hl. unfold load_escalations, readlines.
  destruct line as [|c line]; [done|].
  by rewrite readlines_from_last by (done || by left).
Qed.

(** *** Trimming a written record *)

Lemma lstrip_head_graphic c s : isspace c = false -> lstrip (c :: s) = c :: s.
Proof. intros H. simpl. by rewrite H. Qed.

Lemma rstrip_snoc_space s c : isspace c = true -> rstrip (s ++ [c]) = rstrip s.
Proof.
  intros H. unfold rstrip. rewrite rev_app_distr. simpl. by rewrite H.
Qed.

Lemma rstrip_snoc_graphic s c : isspace c = false -> rstrip (s ++ [c]) = s ++ [c].
Proof.
  intros H. unfold rstrip. rewrite rev_app_distr. simpl. rewrite H.
  change (c :: rev s) with (rev [c] ++ rev s).
  by rewrite <- rev_app_distr, rev_involutive.
Qed.

Lemma strip_record_line members :
  strip (dumps float_repr (Json.Obj members) ++ [10])
  = dumps float_repr (Json.Obj members).
Proof.
  unfold dumps. rewrite dumps_Obj. unfold strip.
  change (([123] ++ ?s ++ [125]) ++ [10]) with (123 :: ((s ++ [125]) ++ [10])).
  rewrite lstrip_head_graphic by done.
  change (123 :: ((?s ++ [125]) ++ [10])) with ((123 :: (s ++ [125])) ++ [10]).
  rewrite rstrip_snoc_space by done.
  change (123 :: (?s ++ [125])) with ((123 :: s) ++ [125]).
  by rewrite rstrip_snoc_graphic.
Qed.

Lemma printable_one_line s : Forall printable s -> one_line s.
Proof.
  intros H. eapply Forall_impl; [exact H|]. unfold printable. intros c. lia.
Qed.

Lemma lstrip_snoc_space s c :
  isspace c = true ->
  (lstrip s = [] /\ lstrip (s ++ [c]) = [])
  \/ (lstrip s <> [] /\ lstrip (s ++ [c]) = lstrip s ++ [c]).
Proof.
  intros Hc. induction s as [|a s IH]; simpl.
  - rewrite Hc. by left.
  - destruct (isspace a); [done|]. by right.
Qed.

Lemma strip_snoc_space s c : isspace c = true -> strip (s ++ [c]) = strip s.
Proof.
  intros Hc. unfold strip.
  destruct (lstrip_snoc_space s c Hc) as [[-> ->]|[_ ->]]; [done|].
  by apply rstrip_snoc_space.
Qed.

Lemma load_line_newline line : load_one [] (line ++ [10]) = load_one [] line.
Proof. unfold load_line. by rewrite strip_snoc_space. Qed.

(** *** Records are well formed *)

Lemma scalar_text_forallb s : forallb is_scalar s = true -> scalar_text s.
Proof.
  intros H. apply Forall_forall. intros c Hc.
  rewrite forallb_forall in H. by apply H, list_elem_of_In.
Qed.

Lemma wf_message_json m :
  wf_message m -> wf (message_json m).
Proof.
  intros [Hr Hc]. unfold message_json. apply wf_Obj. split.
  - simpl. compute_done.
  - repeat constructor; simpl; try done; by apply scalar_text_forallb.
Qed.

Lemma wf_record now t :
  scalar_text now -> wf_task float_repr float_of_literal t -> wf (record_of now t).
Proof.
  intros Hnow (Hu & Hq & Hr & Hc & Hd & Hm & He).
  unfold record_of, payload. apply wf_Obj. split.
  - simpl. compute_done.
  - repeat (apply List.Forall_cons; [split; [by apply scalar_text_forallb|]|]);
      [..|constructor]; cbn [snd]; try done.
    + apply Forall_app. split; [done | by apply scalar_text_forallb].
    + destruct (task_student_email t); done.
    + apply wf_Arr, Forall_map. exact Hd.
    + apply wf_Arr, Forall_map. eapply Forall_impl; [exact Hm|].
      apply wf_message_json.
Qed.

Lemma load_written_record now t :
  scalar_text now -> wf_task float_repr float_of_literal t ->
  load (Some (dumps float_repr (record_of now t) ++ [10])) = [record_of now t].
Proof.
  intros Hnow Ht. pose proof (wf_record now t Hnow Ht) as Hwf.
  rewrite load_single_line
    by (apply printable_one_line, (printable_dumps _ float_of_literal), Hwf).
  unfold load_line. unfold record_of, payload in *.
  rewrite strip_record_line.
  unfold loads, dumps. rewrite (loads_dumps _ _ _ Hwf).
  by rewrite dumps_Obj.
Qed.

Lemma run_task_appends now t file :
  run_task float_repr now file t
  = append_text file (dumps float_repr (record_of now t) ++ [10]).
Proof. reflexivity. Qed.

Lemma load_run_task now t file :
  whole_lines file -> scalar_text now -> wf_task float_repr float_of_literal t ->
  load (run_task float_repr now file t) = load file ++ [record_of now t]
  /\ whole_lines (run_task float_repr now file t).
Proof.
  intros Hfile Hnow Ht. rewrite run_task_appends.
  destruct file as [text|]; unfold append_text.
  - split.
    + by rewrite load_whole_lines, load_written_record.
    + right. exists (text ++ dumps float_repr (record_of now t)).
      by rewrite <- app_assoc.
  - split; [by rewrite load_written_record | right; eauto].
Qed.



End LogFacts.

(** *** The log on the small instance *)

Lemma example_writes_wf :
  Forall (fun w => scalar_text (fst w)
                   /\ wf_task example_float_repr example_float_of_literal (snd w))
    example_writes.
Proof.
  assert (Htask : wf_task example_float_repr example_float_of_literal example_task).
  { unfold wf_task.
    repeat split; try (apply scalar_text_forallb; vm_compute; reflexivity).
    - repeat constructor; vm_compute; reflexivity.
    - repeat constructor; apply scalar_text_forallb; vm_compute; reflexivity. }
  repeat constructor; try exact Htask; apply scalar_text_forallb; vm_compute; reflexivity.
Qed.



(** ** The review page *)

Section ReviewFacts.

Variable float_repr : Q -> pystr.
Variable float_of_literal : pystr -> Q.
Variable container_repr : Json.value -> pystr.

Local Abbreviation row_for := (review_row float_repr container_repr).
Local Abbreviation rows_for := (review_rows float_repr container_repr).
Local Abbreviation page :=
  (review_escalations float_repr float_of_literal container_repr).

Lemma escaped_no_lt s : Forall (fun c => c <> 60) (escaped s).
Proof.
  unfold escaped, replace_char. induction s as [|c s IH]; simpl; [constructor|].
  apply Forall_app. split; [|done].
  destruct (N.eqb_spec c 60); [|by repeat constructor].
  repeat constructor; by vm_compute.
Qed.

Lemma length_preview context :
  (length (preview context) <= PREVIEW_CHARS + length ELLIPSIS)%nat.
Proof. unfold preview. rewrite length_app, length_firstn. lia. Qed.

Lemma mapM_Forall2 {E A B} (f : A -> E + B) xs ys :
  mapM f xs = inr ys -> Forall2 (fun x y => f x = inr y) xs ys.
Proof.
  revert ys. induction xs as [|x xs IH]; intros ys; simpl.
  - intros [= <-]. constructor.
  - intros (y & Hy & (ys' & Hys & [= <-])%bind_inr)%bind_inr.
    constructor; [done | by apply IH].
Qed.

Lemma mapM_number_of ds : mapM number_of (map Json.Num ds) = inr ds.
Proof. induction ds as [|d ds IH]; simpl; [done|]. by rewrite IH. Qed.

(** Whatever the log holds, a row that is rendered carries the escaped
    question, reply and context preview of its record. *)
Lemma review_row_cells item row :
  row_for item = inr row ->
  exists question reply context,
    py_get item (py "question") (Json.Str []) = inr (Json.Str question)
    /\ py_get item (py "reply") (Json.Str []) = inr (Json.Str reply)
    /\ py_get item (py "context") (Json.Str []) = inr (Json.Str context)
    /\ row_question row = escaped question
    /\ row_reply row = escaped reply
    /\ row_context_preview row = escaped (preview context).
Proof.
  unfold review_row.
  intros (ts & _ & H)%bind_inr.
  apply bind_inr in H as (uid & _ & H).
  apply bind_inr in H as (email & _ & H).
  apply bind_inr in H as (q & Hq & H).
  apply bind_inr in H as (r & Hr & H).
  apply bind_inr in H as (c & Hc & H).
  apply bind_inr in H as (cp & Hcp & H).
  apply bind_inr in H as (ds & _ & H).
  apply bind_inr in H as (q' & Hq' & H).
  apply bind_inr in H as (r' & Hr' & H).
  apply bind_inr in H as (cp' & Hcp' & H).
  apply bind_inr in H as (avg & _ & [= <-]).
  destruct q as [ | | |question| | ]; try done.
  destruct r as [ | | |reply| | ]; try done.
  destruct c as [ | | |context| | ]; try done.
  injection Hq' as <-. injection Hr' as <-. injection Hcp as <-.
  injection Hcp' as <-. exists question, reply, context. done.
Qed.

Lemma payload_get (a b c d e f g h : Json.value) :
  let members :=
    [(py "timestamp", a); (py "user_id", b); (py "student_email", c);
     (py "question", d); (py "reply", e); (py "context", f);
     (py "distances", g); (py "conversation", h)] in
  Json.dict_get members (py "timestamp") = Some a
  /\ Json.dict_get members (py "user_id") = Some b
  /\ Json.dict_get members (py "student_email") = Some c
  /\ Json.dict_get members (py "question") = Some d
  /\ Json.dict_get members (py "reply") = Some e
  /\ Json.dict_get members (py "context") = Some f
  /\ Json.dict_get members (py "distances") = Some g.
Proof. repeat split; vm_compute; reflexivity. Qed.

(** A record written by the program is rendered, as the expected row. *)
Lemma review_row_record now t :
  row_for (record_of now t) = inr (row_of float_repr now t).
Proof.
  unfold row_of, record_of, payload, review_row, py_get.
  destruct t as [uid q r c ds convo email]. cbn [task_user_id task_question
    task_reply task_context task_distances task_convo task_student_email].
  destruct (payload_get (Json.Str (now ++ py "Z")) (Json.Str uid)
              (optional_str_json email) (Json.Str q) (Json.Str r) (Json.Str c)
              (Json.Arr (map Json.Num ds)) (Json.Arr (map message_json convo)))
    as (H1 & H2 & H3 & H4 & H5 & H6 & H7).
  cbv zeta in H1, H2, H3, H4, H5, H6, H7.
  rewrite H1, H2, H3, H4, H5, H6, H7.
  assert (Havg : avg_dist float_repr (Json.Arr (map Json.Num ds))
                 = inr match ds with
                       | [] => py "n/a"
                       | _ => float_repr (round3 (py_sum ds / py_len ds))
                       end).
  { destruct ds as [|d ds]; [done|]. unfold avg_dist.
    change (truthy (Json.Arr (map Json.Num (d :: ds)))) with true. cbv iota.
    by rewrite mapM_number_of. }
  cbn [bind slice_plus escape_lt]. rewrite Havg. cbn [bind].
  destruct email, ds; reflexivity.
Qed.

Lemma mapM_map_inr {E A B C} (f : B -> E + C) (g : A -> B) (h : A -> C) xs :
  (forall x, f (g x) = inr (h x)) -> mapM f (map g xs) = inr (map h xs).
Proof.
  intros H. induction xs as [|x xs IH]; simpl; [done|]. by rewrite H, IH.
Qed.

Lemma render_row_head r : exists t, render_row r = 10 :: t.
Proof. unfold render_row, row_html. eexists. reflexivity. Qed.


End ReviewFacts.


(* ================================================================== *)
(** * Further properties *)
(* ================================================================== *)

(** ** White space around an address *)

Lemma lstrip_lstrip s : lstrip (lstrip s) = lstrip s.
Proof.
  induction s as [|c s IH]; simpl; [done|].
  destruct (isspace c) eqn:Hc; [done|]. simpl. by rewrite Hc.
Qed.

Lemma lstrip_suffix s : exists spaces, s = spaces ++ lstrip s.
Proof.
  induction s as [|c s [spaces IH]]; simpl; [by exists []|].
  destruct (isspace c); [|by exists []].
  exists (c :: spaces). simpl. by rewrite <- IH.
Qed.

Lemma rstrip_prefix s : exists spaces, s = rstrip s ++ spaces.
Proof.
  unfold rstrip. destruct (lstrip_suffix (rev s)) as [spaces H].
  exists (rev spaces). rewrite <- rev_app_distr, <- H. by rewrite rev_involutive.
Qed.

Lemma rstrip_rstrip s : rstrip (rstrip s) = rstrip s.
Proof. unfold rstrip. by rewrite rev_involutive, lstrip_lstrip. Qed.

Lemma lstrip_strip s : lstrip (strip s) = strip s.
Proof.
  unfold strip. destruct (rstrip_prefix (lstrip s)) as [spaces H].
  destruct (rstrip (lstrip s)) as [|c r] eqn:E; [done|].
  simpl in H. apply lstrip_head in H. simpl. by rewrite H.
Qed.

Lemma strip_strip s : strip (strip s) = strip s.
Proof.
  unfold strip at 1. rewrite lstrip_strip. unfold strip. apply rstrip_rstrip.
Qed.

Lemma is_knox_email_address text :
  is_knox_email text = true -> knox_address (lower (strip text)).
Proof.
  intros H. destruct text as [|c text]; [done|].
  unfold is_knox_email in H. remember (c :: text) as s eqn:Es. clear Es.
  apply ReFacts.match_anchored_spec in H as [H|(t & E & H)].
  - by apply Matches_KNOX_EMAIL_RE.
  - apply lower_app_inv in E as (u & v & E & _ & Hv).
    destruct v as [|d [|? ?]]; try done.
    injection Hv as Hd. apply strip_last in E.
    rewrite <- isspace_lower_char, Hd in E. done.
Qed.

Lemma is_knox_email_of_strip text :
  is_knox_email (strip text) = is_knox_email text.
Proof.
  destruct text as [|c text]; [done|].
  unfold is_knox_email. rewrite strip_strip.
  destruct (strip (c :: text)); done.
Qed.

(** X1. White space around a message never changes the verdict of the
    e-mail predicate, and trimming twice is trimming once: the address that
    [get_response] stores, the trimmed message, is itself accepted. *)
Theorem is_knox_email_strip (text : pystr) :
  is_knox_email (strip text) = is_knox_email text
  /\ strip (strip text) = strip text.
Proof. split; [apply is_knox_email_of_strip | apply strip_strip]. Qed.

Lemma lower_char_ascii c :
  lower_char c < 128 -> c < 128 \/ c = 8490.
Proof.
  destruct (lower_char_cases c) as [[Hc ->]|[[-> ->]|(Hc & Hk & ->)]]; lia.
Qed.

Lemma lower_char_at c : lower_char c = 64 <-> c = 64.
Proof.
  destruct (lower_char_cases c) as [[Hc ->]|[[-> ->]|(Hc & Hk & ->)]]; lia.
Qed.

Lemma count_occ_lower s :
  count_occ N.eq_dec (lower s) 64 = count_occ N.eq_dec s 64.
Proof.
  induction s as [|c s IH]; simpl; [done|].
  destruct (N.eq_dec (lower_char c) 64) as [E|E], (N.eq_dec c 64) as [E'|E'];
    rewrite ?IH; try done.
  - by apply (proj1 (lower_char_at c)) in E.
  - destruct E. by apply (proj2 (lower_char_at c)).
Qed.

Lemma local_class_plain c :
  local_class c = true -> c < 128 /\ isspace c = false /\ c <> 64.
Proof.
  unfold local_class, in_range, isspace. intros H.
  repeat split; [..|intros ->; done]; revert H; cmp_cases.
Qed.

Lemma count_occ_local local :
  Forall (fun c => local_class c = true) local ->
  count_occ N.eq_dec local 64 = 0%nat.
Proof.
  induction 1 as [|c local Hc _ IH]; simpl; [done|].
  apply local_class_plain in Hc as (_ & _ & Hc).
  by destruct (N.eq_dec c 64).
Qed.

(** X2. A message that the e-mail predicate accepts is, once trimmed, a
    non-empty local part followed by [@knox.edu] in some letter case; it has
    at least ten characters, exactly one [@], no white space inside, and
    only ASCII characters, except that the Kelvin sign U+212A, which
    [str.lower] turns into [k], may stand for a [k]. *)
Theorem is_knox_email_shape (text : pystr) :
  is_knox_email text = true ->
  let address := strip text in
  (exists local domain,
      address = local ++ domain /\ local <> []
      /\ lower domain = py "@knox.edu")
  /\ (10 <= length address)%nat
  /\ count_occ N.eq_dec address 64 = 1%nat
  /\ Forall (fun c => isspace c = false) address
  /\ Forall (fun c => c < 128 \/ c = 8490) address.
Proof.
  intros H address. subst address.
  apply is_knox_email_address in H as (local' & Hne & Hall & E).
  pose proof E as E'.
  apply lower_app_inv in E' as (local & domain & Es & Hl & Hd).
  assert (Hplain : Forall (fun c => c < 128 /\ isspace c = false) (lower (strip text))).
  { rewrite E. apply Forall_app. split.
    - eapply Forall_impl; [exact Hall|]. intros c Hc.
      apply local_class_plain in Hc. tauto.
    - repeat constructor; done. }
  repeat split.
  - exists local, domain. repeat split; [done| |done].
    intros ->. by subst local'.
  - rewrite <- (length_map lower_char). fold (lower (strip text)). rewrite E.
    rewrite length_app. destruct local'; [done|]. simpl. lia.
  - rewrite <- count_occ_lower, E, count_occ_app, count_occ_local by done.
    reflexivity.
  - unfold lower in Hplain. apply Forall_map in Hplain.
    eapply Forall_impl; [exact Hplain|]. simpl. intros c [_ Hc].
    by rewrite <- isspace_lower_char.
  - unfold lower in Hplain. apply Forall_map in Hplain.
    eapply Forall_impl; [exact Hplain|]. simpl. intros c [Hc _].
    by apply lower_char_ascii.
Qed.

Lemma is_knox_email_shape_witness :
  is_knox_email ([32] ++ py "Bob@" ++ [8490] ++ py "NOX.edu" ++ [10]) = true
  /\ count_occ N.eq_dec (strip ([32] ++ py "Bob@" ++ [8490] ++ py "NOX.edu" ++ [10])) 64
     = 1%nat.
Proof.
  assert (H : is_knox_email ([32] ++ py "Bob@" ++ [8490] ++ py "NOX.edu" ++ [10]) = true)
    by (vm_compute; reflexivity).
  split; [exact H|].
  exact (proj1 (proj2 (proj2 (is_knox_email_shape _ H)))).
Defined.

(** X3. The sentence that the system prompt tells the model to add is in
    the prompt, and every reply that holds it, in any letter case, is flagged
    out of scope and so escalated whatever the distances. *)
Theorem prompt_sentence_is_flagged :
  contains OUT_OF_SCOPE_SENTENCE SYSTEM_PROMPT = true
  /\ forall reply distances,
       occurs_ignoring_case OUT_OF_SCOPE_SENTENCE reply ->
       bot_flagged_out_of_scope reply = true
       /\ should_escalate reply distances = true.
Proof.
  split; [vm_compute; reflexivity|].
  intros reply distances (before & s & after & -> & Hs).
  assert (Hf : bot_flagged_out_of_scope (before ++ s ++ after) = true).
  { unfold bot_flagged_out_of_scope. apply contains_spec.
    rewrite !lower_app, Hs.
    exists (lower before ++ py "i'm not sure about that because it's "),
      (py ". i can get a person to follow up if you want." ++ lower after).
    rewrite <- !app_assoc. do 1 f_equal. }
  split; [exact Hf|]. unfold should_escalate. by rewrite Hf.
Qed.

(** ** The endpoint over sequences of requests *)

Section EndpointRuns.

Variable encode : pystr -> vec.
Variable chat : list chat_message -> pystr.
Variable chunks : list pystr.
Variable float_repr : Q -> pystr.

Local Abbreviation respond := (get_response encode chat chunks).
Local Abbreviation step := (next_state encode chat chunks).
Local Abbreviation run_from := (run encode chat chunks).
Local Abbreviation serve_one := (serve encode chat chunks float_repr).
Local Abbreviation serve_from := (serve_all encode chat chunks float_repr).

Lemma mapM_getitem_error {A} (xs : list A) labels e :
  mapM (py_getitem xs) labels = inl e -> e = IndexError.
Proof.
  induction labels as [|l labels IH]; simpl; [done|].
  destruct (py_getitem xs l) as [e'|x] eqn:Hx; simpl.
  - intros [= <-]. revert Hx. unfold py_getitem.
    destruct (_ && _); [|by intros [= <-]].
    destruct (nth_error _ _); [done | by intros [= <-]].
  - destruct (mapM _ labels); simpl; [|done]. intros [= <-]. by apply IH.
Qed.

Lemma chatbot_error user_message messages idx e :
  chatbot encode chat user_message messages idx chunks = inl e -> e = IndexError.
Proof.
  unfold chatbot, get_context.
  destruct (Faiss.search _ _ _) as [D0 I0].
  destruct (mapM (py_getitem chunks) I0) as [e'|texts] eqn:Hm; simpl; [|done].
  intros [= <-]. by apply mapM_getitem_error in Hm.
Qed.

Lemma step_keys st request uid :
  (conversations st !! uid = None <-> student_emails st !! uid = None) ->
  (conversations (step st request) !! uid = None
   <-> student_emails (step st request) !! uid = None).
Proof.
  intros H. destruct (decide (user_id request = uid)) as [<-|Hne].
  - unfold next_state, get_response.
    destruct (conversations st !! user_id request) as [messages|] eqn:Hc; simpl.
    + destruct (student_emails st !! user_id request) as [[email|]|] eqn:He; simpl.
      * destruct (chatbot _ _ _ _ _ _) as [e|[[[reply distances] context] messages']];
          simpl; [by rewrite Hc, He|].
        destruct (_ || _); simpl; by rewrite lookup_insert_eq, He.
      * destruct (is_knox_email _); simpl; [|by rewrite Hc, He].
        by rewrite Hc, lookup_insert_eq.
      * by rewrite Hc, He.
    + by rewrite !lookup_insert_eq.
  - destruct (next_state_other encode chat chunks st request uid Hne) as [-> ->].
    exact H.
Qed.

Lemma run_keys requests st :
  (forall uid, conversations st !! uid = None <-> student_emails st !! uid = None) ->
  forall uid,
    conversations (run_from st requests) !! uid = None
    <-> student_emails (run_from st requests) !! uid = None.
Proof.
  revert st. induction requests as [|request requests IH]; intros st H; simpl; [done|].
  apply IH. intros uid. apply step_keys, H.
Qed.


(** X5. With a knowledge base that is not empty, every request in every
    state reached from the empty one is answered: no exception is raised
    (the embedder and the generative model being taken to return). *)
Theorem get_response_always_answers
    (requests : list ChatRequest) (request : ChatRequest) :
  chunks <> [] ->
  exists response tasks st',
    respond (run_from initial_state requests) request = inr (response, tasks, st').
Proof.
  intros Hne.
  assert (Hkeys : forall uid,
             conversations (run_from initial_state requests) !! uid = None
             <-> student_emails (run_from initial_state requests) !! uid = None).
  { apply run_keys. intros uid. simpl. by rewrite !lookup_empty. }
  unfold get_response.
  destruct (conversations (run_from initial_state requests) !! user_id request)
    as [messages|] eqn:Hc; [|eauto].
  destruct (student_emails (run_from initial_state requests) !! user_id request)
    as [[email|]|] eqn:He.
  - destruct (get_context_total encode chunks (message request) TOP_K Hne)
      as (context & distances & Hctx).
    unfold chatbot. rewrite Hctx. simpl. destruct (_ || _); eauto.
  - destruct (is_knox_email _); eauto.
  - apply Hkeys in He. by rewrite He in Hc.
Qed.

(** *** One user's session does not see the others *)

Lemma respond_agree st1 st2 request :
  conversations st1 !! user_id request = conversations st2 !! user_id request ->
  student_emails st1 !! user_id request = student_emails st2 !! user_id request ->
  response_of (respond st1 request) = response_of (respond st2 request)
  /\ conversations (step st1 request) !! user_id request
     = conversations (step st2 request) !! user_id request
  /\ student_emails (step st1 request) !! user_id request
     = student_emails (step st2 request) !! user_id request.
Proof.
  intros Hc He. unfold next_state, get_response. rewrite <- Hc, <- He.
  destruct (conversations st1 !! user_id request) as [messages|] eqn:Hc1; simpl.
  - destruct (student_emails st1 !! user_id request) as [[email|]|] eqn:He1; simpl.
    + destruct (chatbot _ _ _ _ _ _) as [e|[[[reply distances] context] messages']];
        simpl; [by rewrite <- Hc, <- He, Hc1, He1|].
      destruct (_ || _); simpl; by rewrite !lookup_insert_eq, <- He.
    + destruct (is_knox_email _); simpl.
      * by rewrite !lookup_insert_eq, <- Hc.
      * by rewrite <- Hc, <- He, Hc1, He1.
    + by rewrite <- Hc, <- He, Hc1, He1.
  - by rewrite !lookup_insert_eq.
Qed.

Lemma run_agree requests st1 st2 uid :
  conversations st1 !! uid = conversations st2 !! uid ->
  student_emails st1 !! uid = student_emails st2 !! uid ->
  conversations (run_from st1 requests) !! uid
  = conversations (run_from st2 (requests_of uid requests)) !! uid
  /\ student_emails (run_from st1 requests) !! uid
     = student_emails (run_from st2 (requests_of uid requests)) !! uid.
Proof.
  revert st1 st2. induction requests as [|request requests IH]; intros st1 st2 Hc He.
  - done.
  - unfold requests_of. simpl. destruct (decide (user_id request = uid)) as [E|Hne].
    + rewrite filter_cons_True by done. simpl. subst uid.
      destruct (respond_agree st1 st2 request Hc He) as (_ & Hc' & He').
      by apply IH.
    + rewrite filter_cons_False by done.
      destruct (next_state_other encode chat chunks st1 request uid Hne) as [Hc' He'].
      apply IH; congruence.
Qed.

(** X6. The requests of other users do not reach a user's session: after
    any sequence of requests the history and the address of a user are what
    that user's own requests alone would have left, and so is the response
    to the next message (for a generative model that answers as a function
    of the messages it is given). *)
Theorem session_isolation
    (st : AppState) (requests : list ChatRequest) (uid text : pystr) :
  let st1 := run_from st requests in
  let st2 := run_from st (requests_of uid requests) in
  conversations st1 !! uid = conversations st2 !! uid
  /\ student_emails st1 !! uid = student_emails st2 !! uid
  /\ response_of (respond st1 {| user_id := uid; message := text |})
     = response_of (respond st2 {| user_id := uid; message := text |}).
Proof.
  intros st1 st2.
  destruct (run_agree requests st st uid eq_refl eq_refl) as [Hc He].
  split; [exact Hc|]. split; [exact He|].
  by apply (respond_agree st1 st2 {| user_id := uid; message := text |}).
Qed.

(** *** Histories only grow *)

Lemma step_history st request uid history :
  conversations st !! uid = Some history ->
  exists more, conversations (step st request) !! uid = Some (history ++ more).
Proof.
  intros H. destruct (decide (user_id request = uid)) as [<-|Hne].
  - unfold next_state, get_response. rewrite H.
    destruct (student_emails st !! user_id request) as [[email|]|]; simpl.
    + destruct (chatbot _ _ _ _ _ _) as [e|[[[reply distances] context] messages']] eqn:Hb;
        simpl; [exists []; by rewrite app_nil_r|].
      apply chatbot_inr in Hb as (c & d & _ & [= _ _ _ ->]).
      destruct (_ || _); simpl; rewrite lookup_insert_eq; eexists;
        by rewrite <- app_assoc.
    + destruct (is_knox_email _); simpl; exists []; by rewrite app_nil_r.
    + exists []. by rewrite app_nil_r.
  - destruct (next_state_other encode chat chunks st request uid Hne) as [-> _].
    exists []. by rewrite app_nil_r.
Qed.

(** X7. No request removes or rewrites a message of a history: after any
    sequence of requests the earlier history of a user is a prefix of the
    later one. *)
Theorem history_only_grows
    (st : AppState) (requests : list ChatRequest) (uid : pystr)
    (history : list chat_message) :
  conversations st !! uid = Some history ->
  exists more, conversations (run_from st requests) !! uid = Some (history ++ more).
Proof.
  revert st history. induction requests as [|request requests IH];
    intros st history H; simpl.
  - exists []. by rewrite app_nil_r.
  - destruct (step_history st request uid history H) as [more1 H1].
    destruct (IH _ _ H1) as [more2 H2].
    exists (more1 ++ more2). by rewrite app_assoc.
Qed.

(** *** What reaches the log *)

Lemma get_response_tasks st request response tasks st' :
  respond st request = inr (response, tasks, st') ->
  tasks = []
  \/ exists t email,
       tasks = [t]
       /\ student_emails st !! user_id request = Some (Some email)
       /\ task_student_email t = Some email
       /\ task_user_id t = user_id request
       /\ task_question t = message request
       /\ conversations st' !! user_id request = Some (task_convo t)
       /\ should_escalate (task_reply t) (task_distances t) = true.
Proof.
  unfold get_response.
  destruct (conversations st !! user_id request) as [messages|]; [|intros [= _ <- _]; auto].
  destruct (student_emails st !! user_id request) as [[email|]|]; [| |done].
  - destruct (chatbot _ _ _ _ _ _) as [e|[[[reply distances] context] messages']];
      simpl; [done|].
    destruct (_ || _) eqn:Ht; intros [= _ <- <-]; [|auto].
    right. eexists _, email. simpl. rewrite lookup_insert_eq. by repeat split.
  - destruct (is_knox_email _); intros [= _ <- _]; auto.
Qed.

(** X8. Serving a sequence of requests writes to the log as [write_all]
    does for some sequence of records, at most one per request and each for
    the user and the question of a request served: the text the log held is
    kept, and the new lines follow it. *)
Theorem serve_all_writes
    (st : AppState) (file : option pystr) (requests : list (pystr * ChatRequest)) :
  exists writes,
    snd (serve_from st file requests) = write_all float_repr file writes
    /\ log_text (snd (serve_from st file requests))
       = log_text file ++ concat (map (record_line float_repr) writes)
    /\ (length writes <= length requests)%nat
    /\ Forall (fun w => exists request,
                   In (fst w, request) requests
                   /\ task_user_id (snd w) = user_id request
                   /\ task_question (snd w) = message request) writes.
Proof.
  revert st file. induction requests as [|[now request] requests IH]; intros st file.
  - exists []. simpl. by rewrite app_nil_r.
  - simpl. unfold serve.
    destruct (respond st request) as [e|[[response tasks] st']] eqn:Hr.
    + destruct (IH st file) as (writes & H1 & H2 & H3 & H4).
      exists writes. repeat split; [done | done | lia |].
      eapply Forall_impl; [exact H4|]. intros w (r & ? & ?). eauto.
    + apply get_response_tasks in Hr as [->|(t & email & -> & _ & _ & Hu & Hq & _)].
      * destruct (IH st' file) as (writes & H1 & H2 & H3 & H4).
        exists writes. repeat split; [done | done | simpl; lia |].
        eapply Forall_impl; [exact H4|]. intros w (r & ? & ?). eauto.
      * destruct (IH st' (run_task float_repr now file t)) as (writes & H1 & H2 & H3 & H4).
        exists ((now, t) :: writes). cbn [fold_left].
        split; [exact H1|]. split; [|split].
        -- rewrite H2, run_task_appends. cbn [map concat].
           change (record_line float_repr (now, t))
             with (dumps float_repr (record_of now t) ++ [10]).
           destruct file; unfold append_text, log_text; by rewrite <- ?app_assoc.
        -- cbn [length]. lia.
        -- constructor; [exists request; cbn [fst snd]; by auto using in_eq|].
           eapply Forall_impl; [exact H4|]. intros w (r & ? & ?). eauto.
Qed.

(** X9. A turn of a user who is not yet [Ready] leaves the log as it was;
    so does a [Ready] turn whose reply is not flagged and whose distances are
    not low-confidence, and that turn sends the reply of the model
    unchanged. *)
Theorem quiet_turns_write_nothing
    (st : AppState) (file : option pystr) (now : pystr) (request : ChatRequest) :
  (is_ready st (user_id request) = false ->
   snd (serve_one st file now request) = file)
  /\ (forall messages email reply distances context messages',
        conversations st !! user_id request = Some messages ->
        student_emails st !! user_id request = Some (Some email) ->
        chatbot encode chat (message request) messages (index encode chunks) chunks
        = inr (reply, distances, context, messages') ->
        should_escalate reply distances = false ->
        serve_one st file now request
        = (inr reply,
           {| conversations := <[user_id request := messages']> (conversations st);
              student_emails := student_emails st |},
           file)).
Proof.
  split.
  - unfold is_ready, onboarding, serve, get_response.
    destruct (conversations st !! user_id request) as [messages|]; [|done].
    destruct (student_emails st !! user_id request) as [[email|]|]; try done.
    by destruct (is_knox_email _).
  - intros messages email reply distances context messages' Hc He Hb Hq.
    unfold serve.
    rewrite (get_response_ready encode chat chunks _ _ _ _ _ _ _ _ Hc He Hb).
    simpl. by rewrite Hq.
Qed.

(** *** Every record carries an address *)

Lemma step_emails st request :
  (forall uid email, student_emails st !! uid = Some (Some email) ->
                     is_knox_email email = true /\ strip email = email) ->
  forall uid email, student_emails (step st request) !! uid = Some (Some email) ->
                    is_knox_email email = true /\ strip email = email.
Proof.
  intros H uid email. destruct (decide (user_id request = uid)) as [<-|Hne].
  - unfold next_state, get_response.
    destruct (conversations st !! user_id request) as [messages|]; simpl.
    + destruct (student_emails st !! user_id request) as [[email'|]|] eqn:He; simpl.
      * destruct (chatbot _ _ _ _ _ _) as [e|[[[reply distances] context] messages']];
          simpl; [apply H|].
        destruct (_ || _); simpl; apply H.
      * destruct (is_knox_email (message request)) eqn:Hm; simpl; [|apply H].
        rewrite lookup_insert_eq. intros [= <-].
        by rewrite is_knox_email_of_strip, strip_strip.
      * apply H.
    + by rewrite lookup_insert_eq.
  - destruct (next_state_other encode chat chunks st request uid Hne) as [_ ->].
    apply H.
Qed.

Lemma run_emails requests st :
  (forall uid email, student_emails st !! uid = Some (Some email) ->
                     is_knox_email email = true /\ strip email = email) ->
  forall uid email,
    student_emails (run_from st requests) !! uid = Some (Some email) ->
    is_knox_email email = true /\ strip email = email.
Proof.
  revert st. induction requests as [|request requests IH]; intros st H; simpl; [done|].
  apply IH. by apply step_emails.
Qed.

(** X10. A request hands at most one escalation to the log, and in every
    state reached from the empty one that escalation carries the user id and
    the question of the request and a student address that the e-mail
    predicate accepts and that has no white space around it. *)
Theorem records_carry_an_address
    (requests : list ChatRequest) (request : ChatRequest)
    (response : pystr) (tasks : list EscalationTask) (st' : AppState) :
  respond (run_from initial_state requests) request = inr (response, tasks, st') ->
  (length tasks <= 1)%nat
  /\ Forall (fun t => exists email,
                 task_student_email t = Some email
                 /\ is_knox_email email = true
                 /\ strip email = email
                 /\ task_user_id t = user_id request
                 /\ task_question t = message request) tasks.
Proof.
  intros Hr.
  apply get_response_tasks in Hr as [->|(t & email & -> & He & Ht & Hu & Hq & _)].
  - split; [simpl; lia | constructor].
  - split; [simpl; lia|]. constructor; [|constructor].
    apply run_emails in He as [Hm Hs]; [|intros uid e; simpl; by rewrite lookup_empty].
    exists email. done.
Qed.

End EndpointRuns.

(** ** The log file, line by line *)

Section LogLines.

Variable float_repr : Q -> pystr.
Variable float_of_literal : pystr -> Q.
Variable container_repr : Json.value -> pystr.

Local Abbreviation load := (load_escalations float_of_literal).
Local Abbreviation page :=
  (review_escalations float_repr float_of_literal container_repr).

Lemma printable_py_colon : Forall printable (py ": ").
Proof. repeat constructor; unfold printable; simpl; lia. Qed.

Lemma printable_member key text :
  Forall printable text ->
  Forall printable (Json.encode_string key ++ py ": " ++ text).
Proof.
  intros H. apply Forall_app. split; [apply printable_encode_string|].
  apply Forall_app. split; [apply printable_py_colon | done].
Qed.

Lemma printable_brackets (open close : N) parts :
  printable open -> printable close -> Forall (Forall printable) parts ->
  Forall printable ([open] ++ join (py ", ") parts ++ [close]).
Proof.
  intros Ho Hc Hparts. repeat (apply Forall_app; split).
  - constructor; [done | constructor].
  - by apply printable_join; [apply printable_py_comma|].
  - constructor; [done | constructor].
Qed.

Lemma printable_array xs :
  Forall (fun x => Forall printable (Json.dumps float_repr x)) xs ->
  Forall printable (Json.dumps float_repr (Json.Arr xs)).
Proof.
  intros H.
  change (Json.dumps float_repr (Json.Arr xs))
    with ([91] ++ join (py ", ") (map (Json.dumps float_repr) xs) ++ [93]).
  apply printable_brackets; [unfold printable; lia..|]. by apply Forall_map.
Qed.

Lemma printable_object members :
  Forall (fun kv => Forall printable (Json.dumps float_repr (snd kv))) members ->
  Forall printable (Json.dumps float_repr (Json.Obj members)).
Proof.
  intros H. rewrite dumps_Obj.
  apply printable_brackets; [unfold printable; lia..|].
  apply Forall_map. eapply Forall_impl; [exact H|].
  intros kv Hkv. by apply printable_member.
Qed.

Lemma printable_payload now user_id question reply context distances convo email :
  Forall (fun x => Forall printable (float_repr x)) distances ->
  Forall printable
    (dumps float_repr
       (payload now user_id question reply context distances convo email)).
Proof.
  intros Hd. unfold payload, dumps. apply printable_object.
  assert (Hs : forall s, Forall printable (Json.dumps float_repr (Json.Str s)))
    by (intros s; apply printable_encode_string).
  rewrite !Forall_cons. cbn [snd]. repeat split; try apply Hs; try done.
  - destruct email; [apply Hs|].
    repeat constructor; unfold printable; simpl; lia.
  - apply printable_array, Forall_map. exact Hd.
  - apply printable_array, Forall_map, Forall_forall. intros m _.
    apply printable_object. rewrite !Forall_cons. cbn [snd].
    repeat split; try apply Hs; done.
Qed.

(** X11. Whatever characters the question, the reply, the context and the
    conversation hold (line breaks, quotes, characters outside ASCII), what
    [save_escalation_to_file] appends is one line of printable ASCII followed
    by one line feed, provided each distance is printed in printable ASCII;
    read back, it is a single line. *)
Theorem record_is_one_line
    (now user_id question reply context : pystr) (distances : list Q)
    (convo : list chat_message) (email : option pystr) (file : option pystr) :
  Forall (fun x => Forall printable (float_repr x)) distances ->
  exists line,
    save_escalation_to_file float_repr now user_id question reply context
      distances convo email file
    = append_text file (line ++ [10])
    /\ Forall printable line
    /\ one_line line
    /\ readlines (line ++ [10]) = [line ++ [10]].
Proof.
  intros Hd.
  pose proof (printable_payload now user_id question reply context distances
                convo email Hd) as Hp.
  eexists. split; [reflexivity|]. split; [exact Hp|].
  pose proof (printable_one_line _ Hp) as Hl. split; [exact Hl|].
  unfold readlines.
  change (?l ++ [10]) with (l ++ 10 :: []) at 1.
  by rewrite readlines_from_line.
Qed.

(** *** Line ends *)

Lemma readlines_from_crlf text line :
  Forall (fun c => c <> 13) text ->
  readlines_from line (crlf text) = readlines_from line text.
Proof.
  intros H. revert line. induction H as [|c text Hc _ IH]; intros line; [done|].
  unfold crlf, replace_char in *. cbn [flat_map].
  destruct (N.eqb_spec c 10) as [->|Hn].
  - cbn [app readlines_from N.eqb Pos.eqb]. by rewrite IH.
  - cbn [app readlines_from].
    destruct (N.eqb_spec c 10); [done|]. destruct (N.eqb_spec c 13); [done|].
    apply IH.
Qed.

(** X12. A log whose line feeds were turned into carriage return and line
    feed reads as the same records. *)
Theorem load_escalations_crlf (text : pystr) :
  Forall (fun c => c <> 13) text ->
  load (Some (crlf text)) = load (Some text).
Proof.
  intros H. unfold load_escalations, readlines. by rewrite readlines_from_crlf.
Qed.

(** *** Records that the page cannot show *)

Lemma mapM_inr_all {E A B} (f : A -> E + B) xs ys x :
  mapM f xs = inr ys -> In x xs -> exists y, f x = inr y.
Proof.
  revert ys. induction xs as [|a xs IH]; intros ys; simpl; [done|].
  intros (y & Hy & (ys' & Hys & _)%bind_inr)%bind_inr [<-|Hin]; eauto.
Qed.

Lemma review_row_object item row :
  review_row float_repr container_repr item = inr row ->
  exists members, item = Json.Obj members.
Proof.
  unfold review_row. intros (ts & Hts & _)%bind_inr.
  destruct item; try done. eauto.
Qed.

(** X13. [load_escalations] returns any JSON value that a line holds, and
    the review page does not skip a record that is not an object: if the log
    holds one the page raises, and if it is the newest record the exception
    is [AttributeError]. *)
Theorem review_fails_on_a_record_that_is_no_object
    (file : option pystr) (item : Json.value) :
  In item (load file) ->
  (forall members, item <> Json.Obj members) ->
  (exists e, page file = inl e)
  /\ (forall older, load file = older ++ [item] -> page file = inl AttributeError).
Proof.
  intros Hin Hno. split.
  - unfold review_escalations.
    destruct (review_rows _ _ (load file)) as [e|rows] eqn:Hr; simpl; [eauto|].
    unfold review_rows in Hr.
    destruct (mapM_inr_all _ _ _ item Hr) as [row Hrow].
    { by apply in_rev in Hin. }
    apply review_row_object in Hrow as [members ->]. by destruct (Hno members).
  - intros older E. unfold review_escalations, review_rows.
    rewrite E, rev_app_distr. cbn [rev app mapM].
    destruct item; try done. by destruct (Hno members).
Qed.

(** *** Records without the expected keys *)

(** X14. A record that is an object without any of the keys the page
    reads is still shown: [n/a] for time, user id, address and average
    distance, empty question and reply, and a preview made of the ellipsis
    alone. *)
Theorem review_row_of_missing_keys (members : list (pystr * Json.value)) :
  Forall (fun key => Json.dict_get members key = None) REVIEW_KEYS ->
  review_row float_repr container_repr (Json.Obj members) = inr DEFAULT_ROW.
Proof.
  unfold REVIEW_KEYS. intros H.
  repeat match goal with
         | H : Forall _ (_ :: _) |- _ =>
             let E := fresh "E" in apply List.Forall_cons_iff in H as [E H]
         end.
  unfold review_row, py_get. rewrite E, E0, E1, E2, E3, E4, E5.
  reflexivity.
Qed.

End LogLines.

(** ** Retrieval: distances and chunks *)

Section RetrievalAlignment.
Import Faiss.
Local Open Scope Q_scope.

Variable encode : pystr -> vec.

Lemma nth_error_lookup {A} (xs : list A) i : nth_error xs i = xs !! i.
Proof. revert i; induction xs as [|x xs IH]; intros [|i]; simpl; auto. Qed.

Lemma py_getitem_lookup {A} (xs : list A) (l : Z) x :
  (0 <= l)%Z -> xs !! Z.to_nat l = Some x -> py_getitem xs l = inr x.
Proof.
  intros Hl Hx. pose proof (lookup_lt_Some _ _ _ Hx) as Hlt.
  unfold py_getitem.
  destruct (Z.ltb_spec l 0); [lia|].
  destruct (Z.leb_spec 0 l); [|lia].
  destruct (Z.ltb_spec l (Z.of_nat (length xs))); [|lia]. simpl.
  by rewrite nth_error_lookup, Hx.
Qed.

Lemma hits_texts chunks q hits :
  Forall (fun h => (0 <= snd h)%Z
                   /\ exists v, map encode chunks !! Z.to_nat (snd h) = Some v
                                /\ fst h = l2sqr q v) hits ->
  exists texts,
    mapM (py_getitem chunks) (map snd hits) = inr texts
    /\ Forall2 (fun t d => In t chunks /\ d = l2sqr q (encode t)) texts (map fst hits).
Proof.
  induction 1 as [|h hits (Hl & v & Hv & Hd) _ (texts & Htexts & Hall)]; simpl.
  - exists []. split; [done | constructor].
  - rewrite lookup_map in Hv. apply fmap_Some in Hv as (t & Ht & ->).
    exists (t :: texts). rewrite (py_getitem_lookup chunks _ t Hl Ht), Htexts. simpl.
    split; [done|]. constructor; [|done]. split; [|done].
    apply list_elem_of_In. by apply list_elem_of_lookup_2 in Ht.
Qed.


Lemma Qsquare_nonneg (x : Q) : 0 <= x * x.
Proof. destruct x as [n d]. unfold Qle, Qmult. simpl. nia. Qed.

Lemma l2sqr_nonneg x y : 0 <= l2sqr x y.
Proof.
  revert y. induction x as [|a x IH]; intros [|b y]; simpl; try apply Qle_refl.
  replace 0 with (0 + 0) by reflexivity.
  apply Qplus_le_compat; [apply Qsquare_nonneg | apply IH].
Qed.

Lemma sum_bounds_element (ds : list Q) x :
  Forall (fun d => 0 <= d) ds -> In x ds -> x <= fold_right Qplus (0#1) ds.
Proof.
  induction 1 as [|d ds Hd Hds IH]; simpl; [done|].
  assert (Hsum : 0 <= fold_right Qplus (0#1) ds).
  { clear IH. induction Hds as [|d' ds Hd' _ IH]; simpl; [apply Qle_refl|].
    replace 0 with (0 + 0) by reflexivity. by apply Qplus_le_compat. }
  intros [->|Hin].
  - rewrite <- (Qplus_0_r x) at 1. by apply Qplus_le_compat; [apply Qle_refl|].
  - rewrite <- (Qplus_0_l x). apply Qplus_le_compat; [done | by apply IH].
Qed.

(** X16. When the knowledge base holds between one and four chunks, the
    search for five fills the missing places with the largest [float32], the
    mean distance is above the threshold, and every reply is escalated
    (the index being the exhaustive search that [Faiss.search] models). *)
Theorem small_knowledge_base_always_escalates
    (question reply : pystr) (chunks : list pystr) :
  (0 < length chunks < TOP_K)%nat ->
  exists context distances,
    get_context encode question (index encode chunks) chunks TOP_K
    = inr (context, distances)
    /\ In FLT_MAX distances
    /\ should_log_low_conf distances = true
    /\ should_escalate reply distances = true.
Proof.
  intros [Hpos Hlt].
  assert (Hne : chunks <> []) by (destruct chunks; [simpl in Hpos; lia | done]).
  destruct (get_context_total encode chunks question TOP_K Hne)
    as (context & distances & Hctx).
  exists context, distances. split; [exact Hctx|].
  pose proof (get_context_distances_length encode _ _ _ _ _ _ Hctx) as Hlen.
  unfold get_context, index, search in Hctx.
  change (fst (build_index encode chunks)) with (map encode chunks) in Hctx.
  apply bind_inr in Hctx as (texts & _ & [= _ <-]).
  set (hs := ranked (scan (encode question) (map encode chunks) 0)) in *.
  assert (Hin : In FLT_MAX (map fst (pad TOP_K hs))).
  { unfold pad. rewrite map_app. apply in_or_app. right.
    assert (Hhs : length hs = length chunks)
      by (subst hs; by rewrite length_ranked, length_scan, length_map).
    rewrite Hhs. destruct (TOP_K - length chunks)%nat as [|n] eqn:E; [lia|].
    simpl. by left. }
  assert (Hpos' : Forall (fun d => 0 <= d) (map fst (pad TOP_K hs))).
  { unfold pad. apply Forall_map, Forall_app. split.
    - apply Forall_take. subst hs. apply Forall_ranked.
      eapply Forall_impl; [apply scan_distances|]. simpl.
      intros h (v & _ & ->). apply l2sqr_nonneg.
    - apply Forall_forall. intros h ->%list_elem_of_In%repeat_spec. done. }
  assert (Hlow : should_log_low_conf (map fst (pad TOP_K hs)) = true).
  { apply low_retrieval_confidence_spec. right. unfold mean. rewrite Hlen.
    apply Qlt_shift_div_l; [done|].
    eapply Qlt_le_trans; [|apply (sum_bounds_element _ _ Hpos' Hin)]. done. }
  split; [exact Hin|]. split; [exact Hlow|].
  unfold should_escalate. rewrite Hlow. apply orb_true_r.
Qed.

End RetrievalAlignment.

(** ** From an escalated turn to the review page *)

Section TurnToPage.

Variable encode : pystr -> vec.
Variable chat : list chat_message -> pystr.
Variable chunks : list pystr.
Variable float_repr : Q -> pystr.
Variable float_of_literal : pystr -> Q.
Variable container_repr : Json.value -> pystr.


End TurnToPage.

(** ** The command line *)

Section CliFacts.

Variable encode : pystr -> vec.
Variable chat : list chat_message -> pystr.
Variable chunks : list pystr.

Local Abbreviation loop := (cli_loop encode chat chunks).
Local Abbreviation cli := (run_cli encode chat chunks).

Lemma cli_loop_answers messages inputs rest :
  chunks <> [] ->
  Forall (fun s => is_exit_command s = false) inputs ->
  exists answers final,
    loop messages (inputs ++ rest)
    = (let '(events, final', how) := loop final rest in
       (flat_map answer_events answers ++ events, final', how))
    /\ length answers = length inputs
    /\ length final = (length messages + 2 * length inputs)%nat.
Proof.
  intros Hne Hall. revert messages.
  induction Hall as [|s inputs Hs _ IH]; intros messages.
  - exists [], messages. simpl. split; [|lia]. by destruct (loop messages rest) as [[? ?] ?].
  - destruct (get_context_total encode chunks s TOP_K Hne) as (context & distances & Hctx).
    cbn [app cli_loop]. rewrite Hs. unfold chatbot at 1. rewrite Hctx. cbn [bind].
    match goal with
    | |- context [loop ?ms (inputs ++ rest)] =>
        destruct (IH ms) as (answers & final & -> & Hlen & Hfinal)
    end.
    eexists ((_, distances, context) :: answers), final.
    split; [|split].
    + by destruct (loop final rest) as [[? ?] ?].
    + simpl. lia.
    + rewrite Hfinal, !length_app. simpl. lia.
Qed.

Lemma cli_loop_rest_ignored messages before command after :
  Forall (fun s => is_exit_command s = false) before ->
  is_exit_command command = true ->
  loop messages (before ++ command :: after) = loop messages (before ++ [command]).
Proof.
  intros Hbefore Hcmd. revert messages.
  induction Hbefore as [|s before Hs _ IH]; intros messages; cbn [app cli_loop].
  - by rewrite Hcmd.
  - rewrite Hs.
    destruct (chatbot _ _ _ _ _ _) as [e|[[[reply distances] context] messages']];
      [done|].
    by rewrite IH.
Qed.

(** X18. The command line answers every line up to the first one that is
    [exit] or [quit] once trimmed and put in lower case, then prints
    [Goodbye!] and stops: the lines after it are not read, and the history
    holds the system message and two messages per answered line. *)
Theorem run_cli_stops_at_exit (before : list pystr) (command : pystr) (after : list pystr) :
  chunks <> [] ->
  Forall (fun s => is_exit_command s = false) before ->
  is_exit_command command = true ->
  exists answers final,
    cli (before ++ command :: after)
    = (Printed CLI_BANNER :: flat_map answer_events answers
       ++ [Asked (py "You: "); Printed (py "Goodbye!")],
       final, SaidGoodbye)
    /\ cli (before ++ command :: after) = cli (before ++ [command])
    /\ length answers = length before
    /\ length final = (1 + 2 * length before)%nat.
Proof.
  intros Hne Hbefore Hcmd.
  destruct (cli_loop_answers [Message (py "system") CLI_SYSTEM_PROMPT] before
              (command :: after) Hne Hbefore) as (answers & final & E & Hlen & Hfinal).
  exists answers, final. split; [|split; [|split]].
  - unfold run_cli. rewrite E. cbn [cli_loop]. by rewrite Hcmd.
  - unfold run_cli. by rewrite cli_loop_rest_ignored.
  - exact Hlen.
  - simpl in Hfinal. lia.
Qed.

(** X19. When no line is an exit command, the command line answers every
    line and then ends with the [EOFError] of [input], the history holding
    the system message and two messages per line. *)
Theorem run_cli_at_end_of_input (inputs : list pystr) :
  chunks <> [] ->
  Forall (fun s => is_exit_command s = false) inputs ->
  exists answers final,
    cli inputs
    = (Printed CLI_BANNER :: flat_map answer_events answers ++ [Asked (py "You: ")],
       final, EndOfInput)
    /\ length answers = length inputs
    /\ length final = (1 + 2 * length inputs)%nat.
Proof.
  intros Hne Hall. unfold run_cli.
  destruct (cli_loop_answers [Message (py "system") CLI_SYSTEM_PROMPT] inputs [] Hne Hall)
    as (answers & final & E & Hlen & Hfinal).
  rewrite app_nil_r in E. rewrite E. cbn [cli_loop].
  exists answers, final. split; [done|]. split; [done | simpl in Hfinal; lia].
Qed.

End CliFacts.

(** ** A knowledge base shorter than the search *)

Section ShortKnowledgeBase.
Import Faiss.
Local Open Scope Q_scope.

Variable encode : pystr -> vec.

Lemma mapM_app {E A B} (f : A -> E + B) xs ys a b :
  mapM f xs = inr a -> mapM f ys = inr b -> mapM f (xs ++ ys) = inr (a ++ b).
Proof.
  revert a. induction xs as [|x xs IH]; intros a; simpl.
  - by intros [= <-].
  - intros (y & -> & (a' & Ha & [= <-])%bind_inr)%bind_inr Hb. simpl.
    by rewrite (IH _ Ha Hb).
Qed.

Lemma mapM_repeat {E A B} (f : A -> E + B) x y n :
  f x = inr y -> mapM f (repeat x n) = inr (repeat y n).
Proof. intros H. induction n as [|n IH]; simpl; [done|]. by rewrite H, IH. Qed.

Lemma py_getitem_minus_one {A} (xs : list A) :
  xs <> [] -> exists x, py_getitem xs (-1) = inr x /\ last xs = Some x.
Proof.
  intros Hne.
  assert (Hlen : (0 < length xs)%nat) by (destruct xs; [done | simpl; lia]).
  destruct (last xs) as [x|] eqn:Hlast; [|by apply last_None in Hlast].
  exists x. split; [|done]. unfold py_getitem. cbn [Z.ltb Z.compare].
  destruct (Z.leb_spec 0 (-1 + Z.of_nat (length xs))); [|lia].
  destruct (Z.ltb_spec (-1 + Z.of_nat (length xs)) (Z.of_nat (length xs))); [|lia].
  cbn [andb]. rewrite nth_error_lookup.
  replace (Z.to_nat (-1 + Z.of_nat (length xs))) with (pred (length xs)) by lia.
  by rewrite <- last_lookup, Hlast.
Qed.


End ShortKnowledgeBase.

(** ** What the review page does not escape *)

Section ReviewCells.

Variable float_repr : Q -> pystr.
Variable float_of_literal : pystr -> Q.
Variable container_repr : Json.value -> pystr.

Lemma concat_render_row_In rows row :
  In row rows ->
  exists before after,
    concat (map render_row rows) = before ++ render_row row ++ after.
Proof.
  induction rows as [|r rows IH]; [done|]. cbn [map concat]. intros [->|Hin].
  - exists [], (concat (map render_row rows)). done.
  - destruct (IH Hin) as (before & after & ->).
    exists (render_row r ++ before), after. by rewrite <- app_assoc.
Qed.

Lemma infix_step {A} (R : list A -> list A) (x tail : list A) :
  (exists a b, tail = a ++ R b) -> exists a b, x ++ tail = a ++ R b.
Proof.
  intros (a & b & ->). exists (x ++ a), b. by rewrite <- app_assoc.
Qed.

Lemma render_row_user_id r :
  exists a b,
    render_row r
    = a ++ py "            <div><b>User ID:</b> " ++ row_user_id r ++ py "</div>" ++ b.
Proof.
  unfold render_row, row_html.
  repeat lazymatch goal with
         | |- exists a b, py "            <div><b>User ID:</b> " ++ _ = _ =>
             eexists [], _; reflexivity
         | |- exists a b, _ ++ _ = _ =>
             apply (infix_step
                      (fun b => py "            <div><b>User ID:</b> "
                                ++ row_user_id r ++ py "</div>" ++ b))
         end.
Qed.

(** X21. The review page shows the user id of a record as the client sent
    it: the cell is not escaped, so that markup in a user id reaches the
    page. *)
Theorem review_page_shows_the_user_id_as_sent
    (writes : list (pystr * EscalationTask)) (file : option pystr)
    (now : pystr) (t : EscalationTask) :
  load_escalations float_of_literal file
  = map (fun w => record_of (fst w) (snd w)) writes ->
  In (now, t) writes ->
  exists before after,
    review_escalations float_repr float_of_literal container_repr file
    = inr (before ++ py "            <div><b>User ID:</b> " ++ task_user_id t
           ++ py "</div>" ++ after).
Proof.
  intros Hload Hin. unfold review_escalations, review_rows.
  rewrite Hload, <- map_rev.
  rewrite (mapM_map_inr _ _ (fun w => row_of float_repr (fst w) (snd w)))
    by (intros w; apply review_row_record).
  cbn [bind].
  destruct (concat_render_row_In
              (map (fun w => row_of float_repr (fst w) (snd w)) (rev writes))
              (row_of float_repr now t)) as (before & after & E).
  { apply in_map_iff. exists (now, t). split; [done|]. by apply in_rev in Hin. }
  rewrite E.
  destruct (render_row_head (row_of float_repr now t)) as [tl Etl].
  destruct (render_row_user_id (row_of float_repr now t)) as (a & b & Ea).
  cbn [row_of row_user_id] in Ea.
  destruct (before ++ render_row (row_of float_repr now t) ++ after) as [|c s] eqn:Hcs.
  { rewrite Etl in Hcs. by destruct before. }
  cbv iota. rewrite <- Hcs, Ea.
  exists (PAGE_HEAD ++ before ++ a), (b ++ after ++ PAGE_TAIL).
  generalize PAGE_HEAD PAGE_TAIL (py "            <div><b>User ID:</b> ") (py "</div>").
  intros. by rewrite <- !app_assoc.
Qed.

End ReviewCells.

(** ** The further properties on the small instance *)

Lemma prompt_sentence_is_flagged_witness :
  occurs_ignoring_case OUT_OF_SCOPE_SENTENCE (py "It may rain. " ++ OUT_OF_SCOPE_SENTENCE)
  /\ bot_flagged_out_of_scope (py "It may rain. " ++ OUT_OF_SCOPE_SENTENCE) = true.
Proof.
  assert (H : occurs_ignoring_case OUT_OF_SCOPE_SENTENCE
                (py "It may rain. " ++ OUT_OF_SCOPE_SENTENCE)).
  { exists (py "It may rain. "), OUT_OF_SCOPE_SENTENCE, []. by rewrite app_nil_r. }
  split; [exact H|].
  exact (proj1 (proj2 prompt_sentence_is_flagged _ [] H)).
Defined.

Lemma get_response_always_answers_witness :
  example_chunks <> []
  /\ exists response tasks st',
       get_response example_encode example_chat example_chunks
         (run example_encode example_chat example_chunks initial_state
            [example_request "u1" "hello"; example_request "u1" "bob@knox.edu"])
         (example_request "u1" "When is math tutoring?")
       = inr (response, tasks, st').
Proof.
  assert (H : example_chunks <> []) by discriminate.
  split; [exact H|].
  exact (get_response_always_answers example_encode example_chat example_chunks
           [example_request "u1" "hello"; example_request "u1" "bob@knox.edu"]
           (example_request "u1" "When is math tutoring?") H).
Defined.

Lemma history_only_grows_witness :
  conversations example_ready_state !! py "u1" = Some (history_of [])
  /\ exists more,
       conversations
         (run example_encode example_chat example_chunks example_ready_state
            [example_weather_request])
       !! py "u1"
       = Some (history_of [] ++ more).
Proof.
  assert (H : conversations example_ready_state !! py "u1" = Some (history_of []))
    by (vm_compute; reflexivity).
  split; [exact H|].
  exact (history_only_grows example_encode example_chat example_chunks
           example_ready_state [example_weather_request] (py "u1") (history_of []) H).
Defined.

Lemma quiet_turns_write_nothing_witness :
  let request := example_request "u1" "Math?" in
  let context :=
    py "Math" ++ [10] ++ py "Chem" ++ [10] ++ py "Phys" ++ [10] ++ py "Econ" ++ [10]
    ++ py "Arts" in
  let reply := py "**Math** tutoring is on Monday." in
  let distances := [1; 1; 1; 1; 1]%Q in
  let messages' := history_of [(user_prompt context (message request), reply)] in
  conversations example_ready_state !! user_id request = Some (history_of [])
  /\ student_emails example_ready_state !! user_id request = Some (Some (py "Bob@knox.edu"))
  /\ chatbot example_encode example_chat (message request) (history_of [])
       (index example_encode example_close_chunks) example_close_chunks
     = inr (reply, distances, context, messages')
  /\ should_escalate reply distances = false
  /\ serve example_encode example_chat example_close_chunks example_float_repr
       example_ready_state None (py "2025-01-01T10:00:00") request
     = (inr reply,
        {| conversations := <[user_id request := messages']> (conversations example_ready_state);
           student_emails := student_emails example_ready_state |},
        None).
Proof.
  intros request context reply distances messages'.
  assert (H1 : conversations example_ready_state !! user_id request
               = Some (history_of [])) by (vm_compute; reflexivity).
  assert (H2 : student_emails example_ready_state !! user_id request
               = Some (Some (py "Bob@knox.edu"))) by (vm_compute; reflexivity).
  assert (H3 : chatbot example_encode example_chat (message request) (history_of [])
                 (index example_encode example_close_chunks) example_close_chunks
               = inr (reply, distances, context, messages'))
    by (vm_compute; reflexivity).
  assert (H4 : should_escalate reply distances = false) by (vm_compute; reflexivity).
  split; [exact H1|]. split; [exact H2|]. split; [exact H3|]. split; [exact H4|].
  exact (proj2 (quiet_turns_write_nothing example_encode example_chat
                  example_close_chunks example_float_repr example_ready_state None
                  (py "2025-01-01T10:00:00") request)
           _ _ _ _ _ _ H1 H2 H3 H4).
Defined.

Lemma records_carry_an_address_witness :
  let requests := [example_request "u1" "hello"; example_request "u1" " Bob@knox.edu "] in
  let st := run example_encode example_chat example_chunks initial_state requests in
  let st' :=
    {| conversations :=
         <[py "u1" := task_convo example_weather_task]> (conversations st);
       student_emails := student_emails st |} in
  get_response example_encode example_chat example_chunks st example_weather_request
  = inr (FLAGGED_REPLY, [example_weather_task], st')
  /\ Forall (fun t => exists email,
                 task_student_email t = Some email
                 /\ is_knox_email email = true
                 /\ strip email = email
                 /\ task_user_id t = user_id example_weather_request
                 /\ task_question t = message example_weather_request)
       [example_weather_task].
Proof.
  intros requests st st'.
  assert (H : get_response example_encode example_chat example_chunks st
                example_weather_request
              = inr (FLAGGED_REPLY, [example_weather_task], st'))
    by (vm_compute; reflexivity).
  split; [exact H|].
  exact (proj2 (records_carry_an_address example_encode example_chat example_chunks
                  requests example_weather_request _ _ _ H)).
Defined.

Lemma printable_digits_of_uint d : Forall printable (digits_of_uint d).
Proof.
  induction d; simpl; constructor; try done; unfold printable; lia.
Qed.

Lemma printable_example_float_repr x : Forall printable (example_float_repr x).
Proof.
  unfold example_float_repr. repeat (apply Forall_app; split).
  - destruct (_ <? _)%Z; constructor; [unfold printable; lia | constructor].
  - apply printable_digits_of_uint.
  - constructor; [unfold printable; simpl; lia|].
    constructor; [unfold printable; simpl; lia | constructor].
Qed.

Lemma record_is_one_line_witness :
  Forall (fun x => Forall printable (example_float_repr x)) [16; 36]%Q
  /\ exists line,
       save_escalation_to_file example_float_repr (py "2025-01-01T10:00:00") (py "u1")
         (py "Two" ++ [10] ++ py "lines?") ([233] ++ py " bient" ++ [244; 116])
         (py "a" ++ [13; 10] ++ py "b") [16; 36]%Q (history_of [])
         (Some (py "u1@knox.edu")) None
       = append_text None (line ++ [10])
       /\ Forall printable line
       /\ one_line line
       /\ readlines (line ++ [10]) = [line ++ [10]].
Proof.
  assert (H : Forall (fun x => Forall printable (example_float_repr x)) [16; 36]%Q).
  { apply Forall_forall. intros x _. apply printable_example_float_repr. }
  split; [exact H|].
  exact (record_is_one_line example_float_repr _ _ _ _ _ _ _ _ None H).
Defined.

Lemma load_escalations_crlf_witness :
  Forall (fun c => c <> 13) (py "[1]" ++ [10] ++ py "[2, 3]" ++ [10])
  /\ load_escalations example_float_of_literal
       (Some (crlf (py "[1]" ++ [10] ++ py "[2, 3]" ++ [10])))
     = load_escalations example_float_of_literal
         (Some (py "[1]" ++ [10] ++ py "[2, 3]" ++ [10])).
Proof.
  assert (H : Forall (fun c => c <> 13) (py "[1]" ++ [10] ++ py "[2, 3]" ++ [10]))
    by (repeat (apply List.Forall_cons; [discriminate|]); apply List.Forall_nil).
  split; [exact H|].
  exact (load_escalations_crlf example_float_of_literal _ H).
Defined.

Lemma review_fails_on_a_record_that_is_no_object_witness :
  let file := Some (py "[1, 2]" ++ [10]) in
  let item := Json.Arr [Json.Num 1; Json.Num 2] in
  In item (load_escalations example_float_of_literal file)
  /\ (forall members, item <> Json.Obj members)
  /\ review_escalations example_float_repr example_float_of_literal
       example_container_repr file
     = inl AttributeError.
Proof.
  intros file item.
  assert (H1 : In item (load_escalations example_float_of_literal file))
    by (vm_compute; left; reflexivity).
  assert (H2 : forall members, item <> Json.Obj members) by discriminate.
  split; [exact H1|]. split; [exact H2|].
  apply (proj2 (review_fails_on_a_record_that_is_no_object example_float_repr
                  example_float_of_literal example_container_repr file item H1 H2) []).
  vm_compute. reflexivity.
Defined.

Lemma review_row_of_missing_keys_witness :
  Forall (fun key => Json.dict_get [(py "note", Json.Str (py "x"))] key = None)
    REVIEW_KEYS
  /\ review_row example_float_repr example_container_repr
       (Json.Obj [(py "note", Json.Str (py "x"))])
     = inr DEFAULT_ROW.
Proof.
  assert (H : Forall (fun key => Json.dict_get [(py "note", Json.Str (py "x"))] key
                                 = None) REVIEW_KEYS)
    by (repeat (apply List.Forall_cons; [vm_compute; reflexivity|]);
        apply List.Forall_nil).
  split; [exact H|].
  exact (review_row_of_missing_keys example_float_repr example_container_repr _ H).
Defined.


Lemma small_knowledge_base_always_escalates_witness :
  (0 < length (firstn 2 example_chunks) < TOP_K)%nat
  /\ exists context distances,
       get_context example_encode (py "math")
         (index example_encode (firstn 2 example_chunks)) (firstn 2 example_chunks) TOP_K
       = inr (context, distances)
       /\ In Faiss.FLT_MAX distances
       /\ should_log_low_conf distances = true
       /\ should_escalate (py "**Math** tutoring is on Monday.") distances = true.
Proof.
  assert (H : (0 < length (firstn 2 example_chunks) < TOP_K)%nat)
    by (unfold TOP_K; simpl; lia).
  split; [exact H|].
  exact (small_knowledge_base_always_escalates example_encode (py "math") _
           (firstn 2 example_chunks) H).
Defined.



Lemma run_cli_stops_at_exit_witness :
  example_chunks <> []
  /\ Forall (fun s => is_exit_command s = false) [py "When is math tutoring?"]
  /\ is_exit_command (py " EXIT ") = true
  /\ exists answers final,
       run_cli example_encode example_chat example_chunks
         ([py "When is math tutoring?"] ++ py " EXIT " :: [py "never read"])
       = (Printed CLI_BANNER :: flat_map answer_events answers
          ++ [Asked (py "You: "); Printed (py "Goodbye!")],
          final, SaidGoodbye)
       /\ run_cli example_encode example_chat example_chunks
            ([py "When is math tutoring?"] ++ py " EXIT " :: [py "never read"])
          = run_cli example_encode example_chat example_chunks
              ([py "When is math tutoring?"] ++ [py " EXIT "])
       /\ length answers = length [py "When is math tutoring?"]
       /\ length final = (1 + 2 * length [py "When is math tutoring?"])%nat.
Proof.
  assert (H1 : example_chunks <> []) by discriminate.
  assert (H2 : Forall (fun s => is_exit_command s = false) [py "When is math tutoring?"])
    by (apply List.Forall_cons; [vm_compute; reflexivity | apply List.Forall_nil]).
  assert (H3 : is_exit_command (py " EXIT ") = true) by (vm_compute; reflexivity).
  split; [exact H1|]. split; [exact H2|]. split; [exact H3|].
  exact (run_cli_stops_at_exit example_encode example_chat example_chunks
           [py "When is math tutoring?"] (py " EXIT ") [py "never read"] H1 H2 H3).
Defined.

Lemma run_cli_at_end_of_input_witness :
  example_chunks <> []
  /\ Forall (fun s => is_exit_command s = false) [py "hello"; py "exit now"]
  /\ exists answers final,
       run_cli example_encode example_chat example_chunks [py "hello"; py "exit now"]
       = (Printed CLI_BANNER :: flat_map answer_events answers ++ [Asked (py "You: ")],
          final, EndOfInput)
       /\ length answers = length [py "hello"; py "exit now"]
       /\ length final = (1 + 2 * length [py "hello"; py "exit now"])%nat.
Proof.
  assert (H1 : example_chunks <> []) by discriminate.
  assert (H2 : Forall (fun s => is_exit_command s = false) [py "hello"; py "exit now"])
    by (repeat (apply List.Forall_cons; [vm_compute; reflexivity|]);
        apply List.Forall_nil).
  split; [exact H1|]. split; [exact H2|].
  exact (run_cli_at_end_of_input example_encode example_chat example_chunks
           [py "hello"; py "exit now"] H1 H2).
Defined.

Lemma review_page_shows_the_user_id_as_sent_witness :
  let now := py "2025-01-01T10:00:00" in
  let writes := [(now, example_tagged_task)] in
  let file := write_all example_float_repr None writes in
  load_escalations example_float_of_literal file
  = map (fun w => record_of (fst w) (snd w)) writes
  /\ In (now, example_tagged_task) writes
  /\ exists before after,
       review_escalations example_float_repr example_float_of_literal
         example_container_repr file
       = inr (before ++ py "            <div><b>User ID:</b> " ++ py "<i>u1</i>"
              ++ py "</div>" ++ after).
Proof.
  intros now writes file.
  assert (H1 : load_escalations example_float_of_literal file
               = map (fun w => record_of (fst w) (snd w)) writes)
    by (vm_compute; reflexivity).
  assert (H2 : In (now, example_tagged_task) writes) by (left; reflexivity).
  split; [exact H1|]. split; [exact H2|].
  exact (review_page_shows_the_user_id_as_sent example_float_repr
           example_float_of_literal example_container_repr writes file now
           example_tagged_task H1 H2).
Defined.

